(** * SmartMeet: signalling and session coordination

  A shallow embedding of the session store ([utils/meetingStore.js]), the
  relay event handlers ([socket/socketHandler.js]), the HTTP meeting
  controller ([controllers/meetingController.js]) and the peer-link logic of
  the browser client ([VideoCall] component), followed by the properties
  the specification states about them.

  Conventions.
  - JavaScript strings are sequences of code units; identifiers and texts
    are modelled by [string], one byte per code unit.
  - A value that may be [null] or [undefined] is an [option], [None] for
    both, except where the code tells the two apart: the [isFinal] of a
    transcript request is a [JsFlag].
  - The server processes one event to completion before the next: a handler
    is a function from the state to a new state and the list of outputs it
    produced, in order.
  - Clock readings, generated identifiers and the content of the durable
    store are inputs of each event ([Env]). *)

From stdpp Require Import gmap strings list fin_maps pretty.
From Stdlib Require Import ZArith.


(** ** The session store: [utils/meetingStore.js] *)

Module Store.

Record Participant := mkParticipant {
  p_userId : string;
  p_username : string;
  p_socketId : option string;
  p_isAudioMuted : bool;
  p_isVideoOff : bool;
  p_isHandRaised : bool;
  p_isScreenSharing : bool;
  p_joinedAt : Z
}.

Inductive ActivityType :=
| join | leave | hand_raise | hand_lower | screen_share_start
| screen_share_stop | mute | unmute | video_off | video_on.

Record Activity := mkActivity {
  act_type : ActivityType;
  act_userId : string;
  act_username : string;
  act_timestamp : Z
}.

(** An option of a [create-poll] request: a bare string, or an object whose
    keys [text], [votes] and [count] may each be missing. *)
Inductive OptionIn :=
| OptString (s : string)
| OptObject (txt : option string) (votes : option (list string)) (count : option nat).

(** The [text] of a stored option. For an option object it is
    [opt.text || opt]: the object itself when its text is missing or empty. *)
Inductive OptionText :=
| TextOf (s : string)
| TextObject (o : OptionIn).

Record PollOption := mkOption {
  opt_text : OptionText;
  opt_votes : list string;
  opt_count : nat
}.

Inductive MsgType := text | file | poll.

(** A stored chat entry: [{ ...data, id, type }]. [msg_body] is the text of a
    chat message, the file of a file share or the question of a poll. *)
Record Message := mkMessage {
  msg_id : Z;
  msg_type : MsgType;
  msg_userId : string;
  msg_username : string;
  msg_body : string;
  msg_options : list PollOption;
  msg_timestamp : Z
}.

(** A value in the place of a flag, as a request carries it: left out
    ([undefined]), [null], a boolean, or any other value (a number, a text,
    an object), of which the code asks only whether it is truthy. *)
Inductive JsFlag :=
| js_undefined
| js_null
| js_bool (b : bool)
| js_other (truthy : bool).

(** [if (v)], [filter(t => t.v)] *)
Definition is_truthy (v : JsFlag) : bool :=
  match v with
  | js_bool b => b
  | js_other t => t
  | js_undefined | js_null => false
  end.

(** A default parameter [v = d]: the default replaces [undefined] and
    nothing else, so [null] is kept. *)
Definition or_default (d v : JsFlag) : JsFlag :=
  match v with
  | js_undefined => d
  | _ => v
  end.

Record TranscriptEntry := mkTranscript {
  t_userId : string;
  t_username : string;
  t_text : string;
  t_isFinal : JsFlag;
  t_timestamp : Z
}.

Record InMemoryMeeting := mkMeeting {
  meetingId : string;
  host : string;
  hostUsername : string;
  title : string;
  participants : list Participant;
  messages : list Message;
  transcript : list TranscriptEntry;
  activities : list Activity;
  createdAt : Z;
  isActive : bool;
  endedAt : option Z
}.

#[export] Instance MsgType_eq_dec : EqDecision MsgType.
Proof. solve_decision. Defined.

(** The object literal given to [updateParticipant]: an absent key is [None]. *)
Record Updates := mkUpdates {
  u_socketId : option string;
  u_isAudioMuted : option bool;
  u_isVideoOff : option bool;
  u_isHandRaised : option bool;
  u_isScreenSharing : option bool
}.

Definition no_updates : Updates := mkUpdates None None None None None.

(** [new InMemoryMeeting(meetingId, host, hostUsername, title)] *)
Definition new_meeting (mid h hu t : string) (now : Z) : InMemoryMeeting :=
  mkMeeting mid h hu t [] [] [] [] now true None.

Definition set_participants (m : InMemoryMeeting) (ps : list Participant) :=
  mkMeeting (meetingId m) (host m) (hostUsername m) (title m) ps (messages m)
    (transcript m) (activities m) (createdAt m) (isActive m) (endedAt m).

Definition set_messages (m : InMemoryMeeting) (l : list Message) :=
  mkMeeting (meetingId m) (host m) (hostUsername m) (title m) (participants m) l
    (transcript m) (activities m) (createdAt m) (isActive m) (endedAt m).

Definition set_transcript (m : InMemoryMeeting) (l : list TranscriptEntry) :=
  mkMeeting (meetingId m) (host m) (hostUsername m) (title m) (participants m)
    (messages m) l (activities m) (createdAt m) (isActive m) (endedAt m).

Definition set_activities (m : InMemoryMeeting) (l : list Activity) :=
  mkMeeting (meetingId m) (host m) (hostUsername m) (title m) (participants m)
    (messages m) (transcript m) l (createdAt m) (isActive m) (endedAt m).

Definition set_ended (m : InMemoryMeeting) (now : Z) :=
  mkMeeting (meetingId m) (host m) (hostUsername m) (title m) (participants m)
    (messages m) (transcript m) (activities m) (createdAt m) false (Some now).

(** [arr.push(x); if (arr.length > cap) arr.shift()] *)
Definition push_bounded {A} (cap : nat) (l : list A) (x : A) : list A :=
  let l' := l ++ [x] in
  if decide (cap < length l')%nat then tail l' else l'.

Definition addActivity (m : InMemoryMeeting) (ty : ActivityType)
    (uid uname : string) (now : Z) : InMemoryMeeting :=
  set_activities m (push_bounded 500 (activities m) (mkActivity ty uid uname now)).

Definition getParticipant (m : InMemoryMeeting) (uid : string) : option Participant :=
  list_find (λ p, p_userId p = uid) (participants m) ≫= λ ip, Some ip.2.

Definition addParticipant (m : InMemoryMeeting) (uid uname : string)
    (sock : option string) (now : Z) : InMemoryMeeting * Participant :=
  let kept := filter (λ p, p_userId p ≠ uid) (participants m) in
  let participant := mkParticipant uid uname sock false false false false now in
  (addActivity (set_participants m (kept ++ [participant])) join uid uname now,
   participant).

Definition removeParticipant (m : InMemoryMeeting) (uid : string) (now : Z)
    : InMemoryMeeting :=
  let m1 := match getParticipant m uid with
            | Some p => addActivity m leave uid (p_username p) now
            | None => m
            end in
  set_participants m1 (filter (λ p, p_userId p ≠ uid) (participants m1)).

(** [Object.assign(participant, updates)] *)
Definition assign (p : Participant) (u : Updates) : Participant :=
  mkParticipant (p_userId p) (p_username p)
    (match u_socketId u with Some s => Some s | None => p_socketId p end)
    (default (p_isAudioMuted p) (u_isAudioMuted u))
    (default (p_isVideoOff p) (u_isVideoOff u))
    (default (p_isHandRaised p) (u_isHandRaised u))
    (default (p_isScreenSharing p) (u_isScreenSharing u))
    (p_joinedAt p).

(** The participant object found by [find] is mutated in place: the first
    entry of the list with that [userId] changes, the others do not. *)
Fixpoint assign_first (uid : string) (u : Updates) (ps : list Participant)
    : list Participant :=
  match ps with
  | [] => []
  | p :: ps' => if decide (p_userId p = uid) then assign p u :: ps'
                else p :: assign_first uid u ps'
  end.

(** One of the four [if (updates.f !== undefined && updates.f !== participant.f)]
    blocks of [updateParticipant]. *)
Definition log_change (new : option bool) (old : bool) (on off : ActivityType)
    (uid uname : string) (now : Z) (m : InMemoryMeeting) : InMemoryMeeting :=
  match new with
  | Some b => if decide (b = old) then m
              else addActivity m (if b then on else off) uid uname now
  | None => m
  end.

Definition updateParticipant (m : InMemoryMeeting) (uid : string) (u : Updates)
    (now : Z) : InMemoryMeeting :=
  match getParticipant m uid with
  | Some p =>
      let m1 := log_change (u_isHandRaised u) (p_isHandRaised p)
                  hand_raise hand_lower uid (p_username p) now m in
      let m2 := log_change (u_isScreenSharing u) (p_isScreenSharing p)
                  screen_share_start screen_share_stop uid (p_username p) now m1 in
      let m3 := log_change (u_isAudioMuted u) (p_isAudioMuted p)
                  mute unmute uid (p_username p) now m2 in
      let m4 := log_change (u_isVideoOff u) (p_isVideoOff p)
                  video_off video_on uid (p_username p) now m3 in
      set_participants m4 (assign_first uid u (participants m4))
  | None => m
  end.

Definition addMessage (m : InMemoryMeeting) (msg : Message) : InMemoryMeeting :=
  set_messages m (push_bounded 500 (messages m) msg).

Definition getChatHistory (m : InMemoryMeeting) : list Message := messages m.

(** White space removed by [String.prototype.trim], among one-byte code
    units: TAB, LF, VT, FF, CR, SPACE and NBSP. *)
Definition is_space (c : Ascii.ascii) : bool :=
  let n := Ascii.nat_of_ascii c in
  ((9 <=? n) && (n <=? 13) || (n =? 32) || (n =? 160))%nat.

Fixpoint trimStart (s : string) : string :=
  match s with
  | String c r => if is_space c then trimStart r else s
  | EmptyString => EmptyString
  end.

Fixpoint trimEnd (s : string) : string :=
  match s with
  | String c r =>
      match trimEnd r with
      | EmptyString => if is_space c then EmptyString else String c EmptyString
      | r' => String c r'
      end
  | EmptyString => EmptyString
  end.

Definition trim (s : string) : string := trimEnd (trimStart s).

(** [addTranscript(userId, username, text, isFinal = true)]: the default
    applies when the argument is [undefined]; any other value, [null]
    included, is stored as it came. *)
Definition addTranscript (m : InMemoryMeeting) (uid uname txt : string)
    (isFinal : JsFlag) (now : Z) : InMemoryMeeting :=
  if decide (txt = "" ∨ trim txt = "") then m
  else set_transcript m
         (push_bounded 1000 (transcript m)
            (mkTranscript uid uname (trim txt) (or_default (js_bool true) isFinal) now)).

Definition getTranscript (m : InMemoryMeeting) : list TranscriptEntry := transcript m.

(** What the durable store returns for [findOne({ meetingId })]. *)
Record DbMeeting := mkDbMeeting {
  db_host_userId : string;
  db_host_username : string;
  db_title : string;
  db_isActive : bool;
  db_status : string
}.

(** [MeetingStore.getMeeting]: the resident meeting, or a fresh shell built
    from the durable record when that record is active. A failed query is
    caught and answered like a missing record. *)
Definition getMeeting (db : string → option DbMeeting) (now : Z) (mid : string)
    (ms : gmap string InMemoryMeeting)
    : gmap string InMemoryMeeting * option InMemoryMeeting :=
  match ms !! mid with
  | Some m => (ms, Some m)
  | None =>
      match db mid with
      | Some d =>
          if db_isActive d || bool_decide (db_status d = "active") then
            let m := new_meeting mid (db_host_userId d) (db_host_username d)
                       (db_title d) now in
            (<[mid := m]> ms, Some m)
          else (ms, None)
      | None => (ms, None)
      end
  end.

Definition createMeeting (mid h hu t : string) (now : Z)
    (ms : gmap string InMemoryMeeting) : gmap string InMemoryMeeting :=
  <[mid := new_meeting mid h hu t now]> ms.

Definition removeMeeting (mid : string) (ms : gmap string InMemoryMeeting)
    : gmap string InMemoryMeeting :=
  delete mid ms.

End Store.

(** ** The relay handlers: [socket/socketHandler.js] and the HTTP controller *)

Module Relay.
Import Store.

(** Values of the [activeSockets] map. *)
Record Session := mkSession {
  s_userId : string;
  s_username : string;
  s_meetingId : string
}.

(** The process state: the meeting store, the [activeSockets] map and the
    room memberships set up by [socket.join] and [socket.leave], as pairs
    (connection id, room). *)
Record ServerState := mkState {
  meetings : gmap string InMemoryMeeting;
  activeSockets : gmap string Session;
  rooms : gset (string * string)
}.

Definition init : ServerState := mkState ∅ ∅ ∅.

(** What one event reads from outside the process. *)
Record Env := mkEnv {
  env_db : string → option DbMeeting;   (* MeetingModel.findOne in getMeeting *)
  env_now : Z;                          (* new Date() *)
  env_id : Z;                           (* Date.now() + Math.random() *)
  env_uuid : string;                    (* uuidv4().substring(0, 8).toUpperCase() *)
  env_connected : string → bool;        (* io.sockets.sockets.get(id) is defined *)
  env_dbFails : bool                    (* a MongoDB call of the HTTP controller rejects *)
}.

(** *** Request payloads *)

Record JoinData := mkJoin { j_meetingId : string; j_userId : string; j_username : string }.
Record LeaveData := mkLeave { l_meetingId : string; l_userId : string }.
Record SignalData := mkSignal { sg_target : string; sg_body : string }.
Record ChatData := mkChat {
  c_meetingId : string; c_userId : string; c_username : string;
  c_message : string; c_timestamp : Z
}.

Record PollData := mkPoll {
  pl_meetingId : string; pl_id : Z; pl_userId : string; pl_username : string;
  pl_question : string; pl_options : list OptionIn; pl_timestamp : Z
}.
Record VoteData := mkVote {
  v_meetingId : string; v_pollId : Z; v_userId : string; v_username : string;
  v_optionIndex : Z
}.
Record TranscriptData := mkTranscriptData {
  td_meetingId : string; td_userId : string; td_username : string;
  td_text : string; td_isFinal : JsFlag
}.
Record ToggleData := mkToggle { tg_meetingId : string; tg_userId : string; tg_value : bool }.
Record ModerationData := mkModeration {
  md_meetingId : string; md_hostUserId : string; md_targetUserId : string;
  md_targetSocketId : string; md_targetUsername : string
}.

(** *** Outputs *)

(** [socket.emit], [socket.to(room).emit] (everyone in the room except the
    sender) and [io.to(room).emit]. A connection id is also a room. *)
Inductive Target :=
| SocketEmit (sid : string)
| SocketTo (room sid : string)
| IoTo (room : string).

Record ParticipantView := mkView {
  pv_socketId : option string; pv_userId : string; pv_username : string;
  pv_isAudioMuted : bool; pv_isVideoOff : bool; pv_isHandRaised : bool;
  pv_isScreenSharing : bool
}.

Inductive Payload :=
| PError (message : string)
| PPeerGone (userId username socketId : string)
| PJoined (meetingId : string) (participants : list ParticipantView)
    (yourSocketId : string) (chatHistory : list Message)
| PUserJoined (userId username socketId : string) (timestamp : Z)
| PUserLeft (userId socketId : string)
| PSignal (body sender : string)
| PMessage (msg : Message)
| PHistory (history : list Message)
| PVote (data : VoteData)
| PTranscript (userId username txt : string) (isFinal : JsFlag) (timestamp : Z)
| PToggle (data : ToggleData)
| PForced (by_ message : string)
| PAudio (userId : string) (isAudioMuted : bool)
| PKicked (userId username socketId : string).

Inductive Output :=
| Emit (t : Target) (event : string) (p : Payload)
| Respond (status : nat).

Definition set_meetings (st : ServerState) (ms : gmap string InMemoryMeeting) :=
  mkState ms (activeSockets st) (rooms st).
Definition set_activeSockets (st : ServerState) (a : gmap string Session) :=
  mkState (meetings st) a (rooms st).
Definition set_rooms (st : ServerState) (r : gset (string * string)) :=
  mkState (meetings st) (activeSockets st) r.

(** [await meetingStore.getMeeting(id)] inside a handler. *)
Definition resolve (env : Env) (mid : string) (st : ServerState)
    : ServerState * option InMemoryMeeting :=
  let '(ms, om) := getMeeting (env_db env) (env_now env) mid (meetings st) in
  (set_meetings st ms, om).

(** The resolved meeting object is the one stored under its key: a mutation
    of it is a mutation of the store. *)
Definition store (mid : string) (m : InMemoryMeeting) (st : ServerState) :=
  set_meetings st (<[mid := m]> (meetings st)).

(** JavaScript truthiness of a connection id that may be [null]. *)
Definition truthy (o : option string) : bool :=
  match o with Some s => negb (bool_decide (s = ""%string)) | None => false end.

Definition view (p : Participant) : ParticipantView :=
  mkView (p_socketId p) (p_userId p) (p_username p) (p_isAudioMuted p)
    (p_isVideoOff p) (p_isHandRaised p) (p_isScreenSharing p).

(** *** Meeting management *)

Definition on_join_meeting (env : Env) (sid : string) (d : JoinData)
    (st : ServerState) : ServerState * list Output :=
  let mid := j_meetingId d in
  let uid := j_userId d in
  let uname := j_username d in
  let '(st0, om) := resolve env mid st in
  match om with
  | Some m =>
      if isActive m then
        let st1 := set_rooms st0 ({[ (sid, mid) ]} ∪ rooms st0) in
        let st2 := set_activeSockets st1
                     (<[sid := mkSession uid uname mid]> (activeSockets st1)) in
        let '(st3, m1, notice) :=
          match getParticipant m uid with
          | None => (st2, (addParticipant m uid uname (Some sid) (env_now env)).1, [])
          | Some existing =>
              let '(st2', notice) :=
                match p_socketId existing with
                | Some old =>
                    if truthy (Some old) && negb (bool_decide (old = sid)) then
                      (set_activeSockets st2 (delete old (activeSockets st2)),
                       [Emit (SocketTo mid sid) "user-disconnected"
                          (PPeerGone uid uname old)])
                    else (st2, [])
                | None => (st2, [])
                end in
              (st2',
               updateParticipant m uid
                 (mkUpdates (Some sid) None None None None) (env_now env),
               notice)
          end in
        let others :=
          view <$> filter (λ p, truthy (p_socketId p) = true ∧ p_socketId p ≠ Some sid)
                     (participants m1) in
        (store mid m1 st3,
         notice ++
         [Emit (SocketEmit sid) "joined-meeting"
            (PJoined mid others sid (getChatHistory m1));
          Emit (SocketTo mid sid) "user-joined"
            (PUserJoined uid uname sid (env_now env))])
      else (st0, [Emit (SocketEmit sid) "error" (PError "Meeting not found")])
  | None => (st0, [Emit (SocketEmit sid) "error" (PError "Meeting not found")])
  end.

Definition on_leave_meeting (env : Env) (sid : string) (d : LeaveData)
    (st : ServerState) : ServerState * list Output :=
  let mid := l_meetingId d in
  let '(st0, om) := resolve env mid st in
  let '(st1, outs) :=
    match om with
    | Some m =>
        (store mid (removeParticipant m (l_userId d) (env_now env)) st0,
         [Emit (SocketTo mid sid) "user-left" (PUserLeft (l_userId d) sid)])
    | None => (st0, [])
    end in
  let st2 := set_rooms st1 (rooms st1 ∖ {[ (sid, mid) ]}) in
  (set_activeSockets st2 (delete sid (activeSockets st2)), outs).

Definition on_disconnect (env : Env) (sid : string) (st : ServerState)
    : ServerState * list Output :=
  match activeSockets st !! sid with
  | Some session =>
      let mid := s_meetingId session in
      let '(st0, om) := resolve env mid st in
      let outs :=
        match om with
        | Some _ =>
            [Emit (SocketTo mid sid) "user-disconnected"
               (PPeerGone (s_userId session) (s_username session) sid)]
        | None => []
        end in
      (set_activeSockets st0 (delete sid (activeSockets st0)), outs)
  | None => (st, [])
  end.

(** *** WebRTC signalling: relayed as is, no state *)

Definition on_signal (event : string) (sid : string) (d : SignalData)
    (st : ServerState) : ServerState * list Output :=
  (st, [Emit (IoTo (sg_target d)) event (PSignal (sg_body d) sid)]).

(** *** Chat, files and polls *)

Definition on_chat_message (env : Env) (sid : string) (d : ChatData)
    (st : ServerState) : ServerState * list Output :=
  let mid := c_meetingId d in
  let '(st0, om) := resolve env mid st in
  match om with
  | Some m =>
      let msg := mkMessage (env_id env) text (c_userId d) (c_username d)
                   (c_message d) [] (c_timestamp d) in
      (store mid (addMessage m msg) st0, [Emit (IoTo mid) "chat-message" (PMessage msg)])
  | None => (st0, [])
  end.

Definition on_file_share (env : Env) (sid : string) (d : ChatData)
    (st : ServerState) : ServerState * list Output :=
  let mid := c_meetingId d in
  let '(st0, om) := resolve env mid st in
  match om with
  | Some m =>
      let msg := mkMessage (env_id env) file (c_userId d) (c_username d)
                   (c_message d) [] (c_timestamp d) in
      (store mid (addMessage m msg) st0, [Emit (IoTo mid) "file-shared" (PMessage msg)])
  | None => (st0, [])
  end.

(** [{ text: opt, votes: [], count: 0 }] for a string, else
    [{ text: opt.text || opt, votes: opt.votes || [], count: opt.count || 0 }]:
    a text that is missing or empty is falsy, and the option object takes
    its place. *)
Definition format_option (o : OptionIn) : PollOption :=
  match o with
  | OptString s => mkOption (TextOf s) [] 0
  | OptObject t vs c =>
      let text := match t with
                  | Some s => if decide (s = ""%string) then TextObject o else TextOf s
                  | None => TextObject o
                  end in
      mkOption text (default [] vs) (default 0%nat c)
  end.

Definition on_create_poll (env : Env) (sid : string) (d : PollData)
    (st : ServerState) : ServerState * list Output :=
  let mid := pl_meetingId d in
  let '(st0, om) := resolve env mid st in
  match om with
  | Some m =>
      let msg := mkMessage (pl_id d) poll (pl_userId d) (pl_username d)
                   (pl_question d) (format_option <$> pl_options d) (pl_timestamp d) in
      (store mid (addMessage m msg) st0, [Emit (IoTo mid) "poll-created" (PMessage msg)])
  | None => (st0, [])
  end.

(** The callback of [poll.options.map] in the [vote-poll] handler. *)
Definition vote_option (uid : string) (optionIndex : Z) (idx : nat) (opt : PollOption)
    : PollOption :=
  let votes := filter (λ v, v ≠ uid) (opt_votes opt) in
  let votes := if decide (Z.of_nat idx = optionIndex) then votes ++ [uid] else votes in
  mkOption (opt_text opt) votes (length votes).

Definition vote_options (uid : string) (optionIndex : Z) (opts : list PollOption)
    : list PollOption :=
  imap (vote_option uid optionIndex) opts.

Definition set_options (msg : Message) (opts : list PollOption) : Message :=
  mkMessage (msg_id msg) (msg_type msg) (msg_userId msg) (msg_username msg)
    (msg_body msg) opts (msg_timestamp msg).

(** [chatHistory.findIndex(msg => msg.id === data.pollId && msg.type === 'poll')]
    and the update of the poll found, in place in the chat history. *)
Definition voteOnPoll (pollId : Z) (uid : string) (optionIndex : Z)
    (history : list Message) : list Message :=
  match list_find (λ msg, msg_id msg = pollId ∧ msg_type msg = poll) history with
  | Some (pollIndex, p) =>
      <[pollIndex := set_options p (vote_options uid optionIndex (msg_options p))]> history
  | None => history
  end.

(** [socket.on('vote-poll')]: the history of the resolved meeting is updated
    when a poll matches ([voteOnPoll] returns it unchanged otherwise), and the
    request is broadcast after both conditionals. *)
Definition on_vote_poll (env : Env) (sid : string) (d : VoteData)
    (st : ServerState) : ServerState * list Output :=
  let mid := v_meetingId d in
  let '(st0, om) := resolve env mid st in
  let st1 :=
    match om with
    | Some m =>
        store mid
          (set_messages m
             (voteOnPoll (v_pollId d) (v_userId d) (v_optionIndex d) (getChatHistory m)))
          st0
    | None => st0
    end in
  (st1, [Emit (IoTo mid) "poll-voted" (PVote d)]).

Definition on_get_chat_history (env : Env) (sid : string) (mid : string)
    (st : ServerState) : ServerState * list Output :=
  let '(st0, om) := resolve env mid st in
  match om with
  | Some m => (st0, [Emit (SocketEmit sid) "chat-history" (PHistory (getChatHistory m))])
  | None => (st0, [])
  end.

(** *** Speech transcript *)

Definition on_transcript (env : Env) (sid : string) (d : TranscriptData)
    (st : ServerState) : ServerState * list Output :=
  let mid := td_meetingId d in
  let '(st0, om) := resolve env mid st in
  match om with
  | Some m =>
      if decide (td_text d ≠ ""%string ∧ trim (td_text d) ≠ ""%string) then
        (store mid
           (addTranscript m (td_userId d) (td_username d) (td_text d) (td_isFinal d)
              (env_now env)) st0,
         [Emit (SocketTo mid sid) "transcript-update"
            (PTranscript (td_userId d) (td_username d) (td_text d) (td_isFinal d)
               (env_now env))])
      else (st0, [])
  | None => (st0, [])
  end.

(** *** User state updates *)

Definition on_toggle (event : string) (u : bool → Updates) (env : Env)
    (sid : string) (d : ToggleData) (st : ServerState) : ServerState * list Output :=
  let mid := tg_meetingId d in
  let '(st0, om) := resolve env mid st in
  match om with
  | Some m =>
      (store mid (updateParticipant m (tg_userId d) (u (tg_value d)) (env_now env)) st0,
       [Emit (SocketTo mid sid) event (PToggle d)])
  | None => (st0, [])
  end.

Definition on_toggle_audio :=
  on_toggle "audio-toggled" (λ b, mkUpdates None (Some b) None None None).
Definition on_toggle_video :=
  on_toggle "video-toggled" (λ b, mkUpdates None None (Some b) None None).
Definition on_raise_hand :=
  on_toggle "hand-raised" (λ b, mkUpdates None None None (Some b) None).
Definition on_screen_share :=
  on_toggle "screen-share-update" (λ b, mkUpdates None None None None (Some b)).

(** *** Host controls *)

Definition on_host_mute_participant (env : Env) (sid : string) (d : ModerationData)
    (st : ServerState) : ServerState * list Output :=
  let mid := md_meetingId d in
  let '(st0, om) := resolve env mid st in
  match om with
  | None => (st0, [])
  | Some m =>
      if decide (host m = md_hostUserId d) then
        (store mid
           (updateParticipant m (md_targetUserId d)
              (mkUpdates None (Some true) None None None) (env_now env)) st0,
         [Emit (IoTo (md_targetSocketId d)) "force-mute"
            (PForced "host" "You have been muted by the host");
          Emit (IoTo mid) "audio-toggled" (PAudio (md_targetUserId d) true)])
      else (st0, [])
  end.

Definition on_host_kick_participant (env : Env) (sid : string) (d : ModerationData)
    (st : ServerState) : ServerState * list Output :=
  let mid := md_meetingId d in
  let '(st0, om) := resolve env mid st in
  match om with
  | None => (st0, [])
  | Some m =>
      if decide (host m = md_hostUserId d) then
        let st1 := if env_connected env (md_targetSocketId d)
                   then set_rooms st0 (rooms st0 ∖ {[ (md_targetSocketId d, mid) ]})
                   else st0 in
        (store mid (removeParticipant m (md_targetUserId d) (env_now env)) st1,
         [Emit (IoTo (md_targetSocketId d)) "kicked-from-meeting"
            (PForced "host" "You have been removed from the meeting by the host");
          Emit (IoTo mid) "user-kicked"
            (PKicked (md_targetUserId d) (md_targetUsername d) (md_targetSocketId d))])
      else (st0, [])
  end.

(** *** The HTTP controller: [controllers/meetingController.js]

    Only the effect on the session store and the status of the response are
    kept; the writes to the durable store are outside the process state.
    Each handler changes the session store first and calls MongoDB after;
    when one of these calls rejects ([env_dbFails]: the connection is down,
    or [save] refuses the document against the schema of [models/Meeting.js])
    the [catch] block answers 500, and the change made in memory stays. *)

(** The status of a response sent after the MongoDB calls of a handler. *)
Definition after_db (env : Env) : nat := if env_dbFails env then 500 else 200.

Definition http_createMeeting (env : Env) (h hu t : string) (st : ServerState)
    : ServerState * list Output :=
  let t' := if decide (t = ""%string) then (hu +:+ "'s Meeting")%string else t in
  (set_meetings st (createMeeting (env_uuid env) h hu t' (env_now env) (meetings st)),
   [Respond (after_db env)]).

Definition http_getMeeting (env : Env) (mid : string) (st : ServerState)
    : ServerState * list Output :=
  let '(st0, om) := resolve env mid st in
  match om with
  | Some m => (st0, [Respond (if isActive m then 200 else 404)])
  | None => (st0, [Respond 404])
  end.

Definition http_joinMeeting (env : Env) (mid uid uname : string) (st : ServerState)
    : ServerState * list Output :=
  let '(st0, om) := resolve env mid st in
  match om with
  | Some m =>
      if isActive m then
        (store mid (addParticipant m uid uname None (env_now env)).1 st0,
         [Respond (after_db env)])
      else (st0, [Respond 404])
  | None => (st0, [Respond 404])
  end.

Definition http_leaveMeeting (env : Env) (mid uid : string) (st : ServerState)
    : ServerState * list Output :=
  let '(st0, om) := resolve env mid st in
  match om with
  | Some m =>
      (store mid (removeParticipant m uid (env_now env)) st0, [Respond (after_db env)])
  | None => (st0, [Respond (after_db env)])
  end.

Definition http_endMeeting (env : Env) (mid uid : string) (st : ServerState)
    : ServerState * list Output :=
  let '(st0, om) := resolve env mid st in
  match om with
  | Some m =>
      if decide (host m ≠ uid) then (st0, [Respond 403])
      else (store mid (set_ended m (env_now env)) st0, [Respond (after_db env)])
  | None => (st0, [Respond 404])
  end.

(** *** The event loop *)

Inductive Event :=
| JoinMeeting (sid : string) (d : JoinData)
| LeaveMeeting (sid : string) (d : LeaveData)
| Disconnect (sid : string)
| Offer (sid : string) (d : SignalData)
| Answer (sid : string) (d : SignalData)
| IceCandidate (sid : string) (d : SignalData)
| ChatMessage (sid : string) (d : ChatData)
| FileShare (sid : string) (d : ChatData)
| CreatePoll (sid : string) (d : PollData)
| VotePoll (sid : string) (d : VoteData)
| GetChatHistory (sid : string) (mid : string)
| Transcript (sid : string) (d : TranscriptData)
| ToggleAudio (sid : string) (d : ToggleData)
| ToggleVideo (sid : string) (d : ToggleData)
| RaiseHand (sid : string) (d : ToggleData)
| ScreenShare (sid : string) (d : ToggleData)
| HostMuteParticipant (sid : string) (d : ModerationData)
| HostKickParticipant (sid : string) (d : ModerationData)
| HttpCreate (h hu t : string)
| HttpGet (mid : string)
| HttpJoin (mid uid uname : string)
| HttpLeave (mid uid : string)
| HttpEnd (mid uid : string).

Definition step (env : Env) (ev : Event) (st : ServerState) : ServerState * list Output :=
  match ev with
  | JoinMeeting sid d => on_join_meeting env sid d st
  | LeaveMeeting sid d => on_leave_meeting env sid d st
  | Disconnect sid => on_disconnect env sid st
  | Offer sid d => on_signal "offer" sid d st
  | Answer sid d => on_signal "answer" sid d st
  | IceCandidate sid d => on_signal "ice-candidate" sid d st
  | ChatMessage sid d => on_chat_message env sid d st
  | FileShare sid d => on_file_share env sid d st
  | CreatePoll sid d => on_create_poll env sid d st
  | VotePoll sid d => on_vote_poll env sid d st
  | GetChatHistory sid mid => on_get_chat_history env sid mid st
  | Transcript sid d => on_transcript env sid d st
  | ToggleAudio sid d => on_toggle_audio env sid d st
  | ToggleVideo sid d => on_toggle_video env sid d st
  | RaiseHand sid d => on_raise_hand env sid d st
  | ScreenShare sid d => on_screen_share env sid d st
  | HostMuteParticipant sid d => on_host_mute_participant env sid d st
  | HostKickParticipant sid d => on_host_kick_participant env sid d st
  | HttpCreate h hu t => http_createMeeting env h hu t st
  | HttpGet mid => http_getMeeting env mid st
  | HttpJoin mid uid uname => http_joinMeeting env mid uid uname st
  | HttpLeave mid uid => http_leaveMeeting env mid uid st
  | HttpEnd mid uid => http_endMeeting env mid uid st
  end.

(** The state after a sequence of events, each with what it read from
    outside, starting from [st]. *)
Definition run (evs : list (Env * Event)) (st : ServerState) : ServerState :=
  foldl (λ s ee, (step ee.1 ee.2 s).1) st evs.

End Relay.

(** ** The browser client: peer links of the [VideoCall] component

  The peer-connection map, the participant list kept in the component's
  state and what the signalling handlers do to them; the media tracks are
  left out. Calls into the browser's WebRTC stack are taken to succeed, and
  a handler runs to completion. An updater given to [setParticipants] is
  run where it is given: React may run it later, and the only effect it has
  outside the list, [cleanupPeerConnection] of a connection id, is on another
  key of the map than the one the rest of its handler works on. *)

Module Client.
Import Relay.

Inductive SignalingState :=
| stable | have_local_offer | have_remote_offer
| have_local_pranswer | have_remote_pranswer | closed.

#[export] Instance SignalingState_eq_dec : EqDecision SignalingState.
Proof. solve_decision. Defined.

(** An [RTCPeerConnection] with the [isInitiator] argument captured by its
    [onnegotiationneeded] callback. *)
Record PeerConnection := mkPc {
  signalingState : SignalingState;
  isInitiator : bool
}.

(** An entry of the participant list is what the server sends for a
    participant ([odersID], derived from the user id, is left out). *)
Record ClientState := mkClient {
  socketId : option string;                      (* socketRef.current?.id *)
  localStream : bool;                            (* localStreamRef.current is set *)
  peerConnections : gmap string PeerConnection;  (* keyed by remote connection id *)
  cl_userId : string;                            (* the props userId, username *)
  cl_username : string;
  cl_participants : list ParticipantView         (* the state set by setParticipants *)
}.

Inductive Action :=
| Closed (remote : string)                              (* pc.close() *)
| OfferTimer (delay : nat) (remote : string) (iceRestart : bool)
                                                        (* setTimeout(createOffer) *)
| Rollback (remote : string)            (* setLocalDescription({type: 'rollback'}) *)
| RemoteOfferSet (remote : string)      (* setRemoteDescription(offer) *)
| AnswerSent (remote : string)          (* emit('answer', { target, answer }) *)
| JoinSent.                             (* emit('join-meeting', ...) *)

Definition set_peerConnections (st : ClientState) (pcs : gmap string PeerConnection) :=
  mkClient (socketId st) (localStream st) pcs (cl_userId st) (cl_username st)
    (cl_participants st).

Definition set_cl_participants (st : ClientState) (ps : list ParticipantView) :=
  mkClient (socketId st) (localStream st) (peerConnections st) (cl_userId st)
    (cl_username st) ps.


(** [localId < remoteId] on a connection id that may be [undefined]:
    strings compare code unit by code unit, a proper prefix first;
    [undefined] compares false with every string. *)
Definition shouldInitiate (localId remoteId : string) : bool :=
  String.ltb localId remoteId.

Definition id_lt (localId : option string) (remoteId : string) : bool :=
  match localId with
  | Some l => shouldInitiate l remoteId
  | None => false
  end.

Definition createPeerConnection (remote : string) (initiator : bool) (st : ClientState)
    : ClientState * list Action :=
  let closing := match peerConnections st !! remote with
                 | Some _ => [Closed remote]
                 | None => []
                 end in
  (set_peerConnections st (<[remote := mkPc stable initiator]> (peerConnections st)),
   closing ++ (if initiator then [OfferTimer 1500 remote false] else [])).

Definition cleanupPeerConnection (remote : string) (st : ClientState)
    : ClientState * list Action :=
  match peerConnections st !! remote with
  | Some _ => (set_peerConnections st (delete remote (peerConnections st)), [Closed remote])
  | None => (st, [])
  end.

(** The body shared by the [joined-meeting] loop and the [user-joined]
    handler once the remote id has passed their guards:
    [if (!hasPc) { createPeerConnection(...); if (shouldInitiate) setTimeout(...) }]. *)
Definition connect_to (remote : string) (st : ClientState) : ClientState * list Action :=
  let hasPc := bool_decide (is_Some (peerConnections st !! remote)) in
  let initiate := id_lt (socketId st) remote in
  if hasPc then (st, [])
  else
    let '(st', acts) := createPeerConnection remote initiate st in
    (st', acts ++ (if initiate then [OfferTimer 1500 remote false] else [])).

(** One iteration of [data.participants.forEach] in the [joined-meeting] handler. *)
Definition joined_one (acc : ClientState * list Action) (remote : option string)
    : ClientState * list Action :=
  match remote with
  | None => acc
  | Some r =>
      if bool_decide (r = ""%string) then acc
      else if bool_decide (Some r = socketId acc.1) then acc
      else let '(st', acts) := connect_to r acc.1 in (st', acc.2 ++ acts)
  end.

(** The filter of the roster in the [joined-meeting] handler: an entry
    without user id, or with a user id seen before, is dropped. *)
Fixpoint deduplicated (seenUserIds : list string) (ps : list ParticipantView)
    : list ParticipantView :=
  match ps with
  | [] => []
  | p :: ps' =>
      if decide (pv_userId p = ""%string ∨ pv_userId p ∈ seenUserIds)
      then deduplicated seenUserIds ps'
      else p :: deduplicated (pv_userId p :: seenUserIds) ps'
  end.

(** The entry of the local user in its own list. *)
Definition self_entry (st : ClientState) : ParticipantView :=
  mkView (socketId st) (cl_userId st) (cl_username st) false false false false.

(** [socket.on('joined-meeting')]: the participant list is replaced by the
    local user followed by the roster without repeated users; then, when a
    local stream exists, the loop runs over the roster as it was sent. *)
Definition on_joined_meeting (roster : list ParticipantView) (st : ClientState)
    : ClientState * list Action :=
  let st1 := set_cl_participants st
               (self_entry st :: deduplicated [cl_userId st] roster) in
  if localStream st1 then foldl joined_one (st1, []) (pv_socketId <$> roster)
  else (st1, []).

(** The entry added to the list for a user who joined. *)
Definition joined_entry (uid uname remote : string) : ParticipantView :=
  mkView (Some remote) uid uname false false false false.

(** The updater given to [setParticipants] in the [user-joined] handler. A
    user listed under another connection id has reconnected: the peer
    connection to the old id is cleaned up and the entry replaced. *)
Definition rejoined (uid uname remote : string) (st : ClientState)
    : ClientState * list Action :=
  let prev := cl_participants st in
  match list_find (λ p, pv_userId p = uid) prev with
  | Some (_, existingByUser) =>
      if decide (pv_socketId existingByUser ≠ Some remote) then
        let '(st1, acts) :=
          match pv_socketId existingByUser with
          | Some old => cleanupPeerConnection old st
          | None => (st, [])
          end in
        (set_cl_participants st1
           (filter (λ p, pv_userId p ≠ uid) prev ++ [joined_entry uid uname remote]),
         acts)
      else (st, [])
  | None => (set_cl_participants st (prev ++ [joined_entry uid uname remote]), [])
  end.

(** [socket.on('user-joined')], on the user id, the name and the connection
    id of the newcomer. *)
Definition on_user_joined (uid uname remote : string) (st : ClientState)
    : ClientState * list Action :=
  let '(st1, acts1) := rejoined uid uname remote st in
  if bool_decide (remote = ""%string) || bool_decide (Some remote = socketId st1)
  then (st1, acts1)
  else if localStream st1 then
    let '(st2, acts2) := connect_to remote st1 in (st2, acts1 ++ acts2)
  else (st1, acts1).


(** [handleUserDisconnected(socketId)], the listener of [user-left],
    [user-disconnected] and [user-kicked]. *)
Definition handleUserDisconnected (remote : string) (st : ClientState)
    : ClientState * list Action :=
  let '(st1, acts) := cleanupPeerConnection remote st in
  (set_cl_participants st1
     (filter (λ p, pv_socketId p ≠ Some remote) (cl_participants st1)),
   acts).

Definition set_signalingState (pc : PeerConnection) (s : SignalingState) :=
  mkPc s (isInitiator pc).

(** The glare test of [handleOffer]: [localId && localId < senderId]. *)
Definition rolls_back (localId : option string) (senderId : string) : bool :=
  match localId with
  | Some l => negb (bool_decide (l = ""%string)) && shouldInitiate l senderId
  | None => false
  end.

Definition accepts (s : SignalingState) : bool :=
  bool_decide (s = stable) || bool_decide (s = have_remote_offer).

(** [handleOffer(offer, senderId)]. *)
Definition handleOffer (senderId : string) (st : ClientState)
    : ClientState * list Action :=
  (* glare: a local offer is pending when the remote offer arrives *)
  let glare : option (ClientState * list Action) :=
    match peerConnections st !! senderId with
    | Some pc =>
        if decide (signalingState pc = have_local_offer) then
          if rolls_back (socketId st) senderId then
            Some (set_peerConnections st
                    (<[senderId := set_signalingState pc stable]> (peerConnections st)),
                  [Rollback senderId])
          else None
        else Some (st, [])
    | None => Some (st, [])
    end in
  match glare with
  | None => (st, [])
  | Some (st1, acts1) =>
      (* a connection in a conflicting state is dropped *)
      let '(st2, acts2) :=
        match peerConnections st1 !! senderId with
        | Some pc => if accepts (signalingState pc) then (st1, [])
                     else cleanupPeerConnection senderId st1
        | None => (st1, [])
        end in
      (* no connection: create one, not as initiator *)
      let '(st3, acts3) :=
        match peerConnections st2 !! senderId with
        | Some _ => (st2, [])
        | None => createPeerConnection senderId false st2
        end in
      match peerConnections st3 !! senderId with
      | Some pc =>
          if accepts (signalingState pc) then
            (set_peerConnections st3
               (<[senderId := set_signalingState pc stable]> (peerConnections st3)),
             acts1 ++ acts2 ++ acts3 ++ [RemoteOfferSet senderId; AnswerSent senderId])
          else (st3, acts1 ++ acts2 ++ acts3)
      | None => (st3, acts1 ++ acts2 ++ acts3)
      end
  end.

End Client.

(** ** The summarisation service: [services/geminiService.js] *)

Module Summary.
Import Store.

(** The entries kept by [transcript.filter(t => t.isFinal)]. *)
Definition finalEntries (tr : list TranscriptEntry) : list TranscriptEntry :=
  filter (λ t, is_truthy (t_isFinal t) = true) tr.

Definition join_lines (ls : list string) : string :=
  match ls with
  | [] => ""
  | l :: ls' => foldl (λ acc s, acc +:+ String (Ascii.ascii_of_nat 10) s) l ls'
  end.

(** [formatTranscript(transcript)]; the rendering of a time of day depends
    on the locale and is a parameter. *)
Definition formatTranscript (toLocaleTimeString : Z → string)
    (tr : list TranscriptEntry) : string :=
  match tr with
  | [] => "No spoken conversation recorded."
  | _ =>
      let lines :=
        (λ t, "[" +:+ toLocaleTimeString (t_timestamp t) +:+ "] " +:+ t_username t
              +:+ ": " +:+ t_text t) <$> finalEntries tr in
      match join_lines lines with
      | EmptyString => "No spoken conversation recorded."
      | s => s
      end
  end.

End Summary.

Import Store Relay Client Summary.

(** ** Invariants and scenarios used in the statements below *)

Definition userIds (m : InMemoryMeeting) : list string := p_userId <$> participants m.

(** The invariant of one meeting: one entry per user, bounded logs. *)
Definition meeting_ok (m : InMemoryMeeting) : Prop :=
  NoDup (userIds m) ∧ length (messages m) ≤ 500 ∧
  length (transcript m) ≤ 1000 ∧ length (activities m) ≤ 500.

(** Every resident meeting satisfies the meeting invariant. *)
Definition store_ok (st : ServerState) : Prop :=
  ∀ mid m, meetings st !! mid = Some m → meeting_ok m.

(** The test of [findIndex] in the [vote-poll] handler. *)
Definition is_poll (pollId : Z) (msg : Message) : Prop :=
  msg_id msg = pollId ∧ msg_type msg = poll.

(** A meeting created over HTTP by host "h"; user "u1" joins over HTTP and
    then over connection "s1", user "u2" over connection "s2". *)
Definition demo_env : Env :=
  mkEnv (λ _, None) 0%Z 1%Z "MEET0001" (λ _, false) false.

Definition demo_events : list (Env * Event) :=
  [(demo_env, HttpCreate "h" "Hana" "Standup");
   (demo_env, HttpJoin "MEET0001" "u1" "Uma");
   (demo_env, JoinMeeting "s1" (mkJoin "MEET0001" "u1" "Uma"));
   (demo_env, JoinMeeting "s2" (mkJoin "MEET0001" "u2" "Vik"))].

Definition demo_meeting : InMemoryMeeting :=
  Eval vm_compute in
    default (new_meeting "" "" "" "" 0) (meetings (run demo_events init) !! "MEET0001"%string).

(** An interim transcript entry sent to a fresh meeting. *)
Definition interim_events : list (Env * Event) :=
  [(demo_env, HttpCreate "h" "Hana" "Standup");
   (demo_env, Transcript "s1" (mkTranscriptData "MEET0001" "u1" "Uma" " hel" (js_bool false)))].

(** A stored poll with two options, and a vote for an index it does not have. *)
Definition demo_poll : Message :=
  mkMessage 7 poll "h" "Hana" "Lunch?" [mkOption (TextOf "yes") ["u1"] 1; mkOption (TextOf "no") [] 0] 0.

Definition stray_vote_events : list (Env * Event) :=
  [(demo_env, HttpCreate "h" "Hana" "Standup");
   (demo_env, CreatePoll "s1"
                (mkPoll "MEET0001" 7 "h" "Hana" "Lunch?" [OptString "yes"; OptString "no"] 0));
   (demo_env, VotePoll "s2" (mkVote "MEET0001" 7 "u1" "Uma" 5))].


(** ** Cross-origin policy: [server.js] *)

Module Cors.

Definition comma : Ascii.ascii := Ascii.ascii_of_nat 44.

(** [s.split(',')] *)
Fixpoint split_comma (s : string) : list string :=
  match s with
  | EmptyString => [EmptyString]
  | String c r =>
      if decide (c = comma) then EmptyString :: split_comma r
      else match split_comma r with
           | h :: t => String c h :: t
           | [] => [String c EmptyString]
           end
  end.

(** [getAllowedOrigins], on the value of [ALLOWED_ORIGINS]: unset and empty
    both give [null]. *)
Definition getAllowedOrigins (allowed_origins : option string) : option (list string) :=
  match allowed_origins with
  | Some s => if decide (s = ""%string) then None else Some (trim <$> split_comma s)
  | None => None
  end.

(** The [origin] callback of [corsOptions]: [true] is [callback(null, true)],
    [false] is [callback(new Error('Not allowed by CORS'))]. A request without
    origin has [origin = None]; the empty string is falsy too. *)
Definition origin_allowed (allowedOrigins : option (list string)) (isProduction : bool)
    (origin : option string) : bool :=
  match origin with
  | None => true
  | Some o =>
      if decide (o = ""%string) then true
      else match allowedOrigins with
           | None => true
           | Some l =>
               if decide (o ∈ l) then true
               else if negb isProduction then true
               else false
           end
  end.

End Cors.

(** ** The summary controller: [controllers/summaryController.js] *)

Module SummaryController.

(** What [calculateDuration] asks of an argument [v]: whether [!v] holds,
    and the time value of [new Date(v)] in milliseconds, [None] when that is
    NaN (an Invalid Date, a number beyond the range of a Date, a text that
    does not parse). A time value is a whole number within [maxTime] of 0. *)
Record TimeArg := mkTimeArg {
  ta_falsy : bool;
  ta_time : option Z
}.

Definition maxTime : Z := 8640000000000000.

(** [undefined] or [null]. *)
Definition no_time : TimeArg := mkTimeArg true None.

(** A Date object with the given time value: an object is truthy, valid or not. *)
Definition of_date (t : option Z) : TimeArg := mkTimeArg false t.

(** A whole number [n] of milliseconds: [0] is falsy, and [new Date(n)] is
    an Invalid Date beyond the range. *)
Definition of_number (n : Z) : TimeArg :=
  mkTimeArg (bool_decide (n = 0%Z))
    (if decide (- maxTime ≤ n ≤ maxTime)%Z then Some n else None).

(** [calculateDuration(start, end)]. With an Invalid Date the difference is
    NaN: no comparison with it holds, and [Math.floor] hands it on to the
    template, which prints "NaN". The arithmetic on time values is that of
    whole numbers: so is the code's floating point arithmetic as long as the
    difference is at most 2^53, where the subtraction is exact and the floor
    of each quotient is the whole quotient. Whole numbers print in decimal. *)
Definition calculateDuration (start end_ : TimeArg) : string :=
  if ta_falsy start || ta_falsy end_ then "Unknown"
  else
    match ta_time start, ta_time end_ with
    | Some s, Some e =>
        let diffMs := (e - s)%Z in
        if decide (diffMs < 0)%Z then "Unknown"
        else
          let hours := (diffMs / (1000 * 60 * 60))%Z in
          let minutes := ((diffMs `mod` (1000 * 60 * 60)) / (1000 * 60))%Z in
          if decide (0 < hours)%Z then pretty hours +:+ "h " +:+ pretty minutes +:+ "m"
          else pretty minutes +:+ " minutes"
    | _, _ => "NaN minutes"
    end.

(** The [data] object of [getMeetingData]. *)
Record MeetingData := mkMeetingData {
  md_id : string;
  md_title : string;
  md_host : string;
  md_participants : list (string * Z);
  md_messageCount : nat;
  md_pollCount : nat;
  md_fileCount : nat;
  md_startTime : Z;
  md_isActive : bool
}.

Definition meetingData (m : InMemoryMeeting) : MeetingData :=
  let messages := getChatHistory m in
  mkMeetingData (meetingId m) (title m) (hostUsername m)
    ((λ p, (p_username p, p_joinedAt p)) <$> participants m)
    (length (filter (λ msg, msg_type msg = text) messages))
    (length (filter (λ msg, msg_type msg = poll) messages))
    (length (filter (λ msg, msg_type msg = file) messages))
    (createdAt m) (isActive m).

(** [exports.getMeetingData]: the status of the response and its data. *)
Definition getMeetingData (env : Env) (mid : string) (st : ServerState)
    : ServerState * (nat * option MeetingData) :=
  let '(st0, om) := resolve env mid st in
  match om with
  | Some m => (st0, (200, Some (meetingData m)))
  | None => (st0, (404, None))
  end.

End SummaryController.

(** ** The chat panel of the client: [components/Chat.js] *)

Module ChatClient.

(** The callback of [msg.options.map] in the [poll-voted] listener. *)
Definition updated_option (userId : string) (optionIndex : Z) (idx : nat)
    (opt : PollOption) : PollOption :=
  let currentVotes := opt_votes opt in
  let votesWithoutUser := filter (λ v, v ≠ userId) currentVotes in
  let votes := if decide (Z.of_nat idx = optionIndex)
               then votesWithoutUser ++ [userId] else votesWithoutUser in
  mkOption (opt_text opt) votes (length votes).

(** [socket.on('poll-voted')]: every message of the local history with the
    poll's id and type is updated. *)
Definition on_poll_voted (d : VoteData) (msgs : list Message) : list Message :=
  (λ msg,
     if decide (msg_id msg = v_pollId d ∧ msg_type msg = poll) then
       set_options msg (imap (updated_option (v_userId d) (v_optionIndex d)) (msg_options msg))
     else msg) <$> msgs.

End ChatClient.

(** ** Offers and answers on the client: the [VideoCall] component *)

Module Negotiation.

(** What a handler sends over the socket. *)
Inductive Sent :=
| OfferSent (target : string) (iceRestart : bool).

(** [createOffer(socketId, iceRestart)], with the set [pendingOffers] of
    targets whose offer is being created. An offer is made only for an
    existing connection in state [stable]; the target is in [pendingOffers]
    while the offer is made and removed once it is sent. *)
Definition createOffer (pendingOffers : gset string) (target : string) (iceRestart : bool)
    (st : ClientState) : gset string * ClientState * list Sent :=
  if decide (target ∈ pendingOffers) then (pendingOffers, st, [])
  else match peerConnections st !! target with
       | None => (pendingOffers, st, [])
       | Some pc =>
           if decide (signalingState pc ≠ stable) then (pendingOffers, st, [])
           else
             (({[ target ]} ∪ pendingOffers) ∖ {[ target ]},
              set_peerConnections st
                (<[target := set_signalingState pc have_local_offer]> (peerConnections st)),
              [OfferSent target iceRestart])
       end.

(** [handleAnswer(answer, senderId)]: an answer is taken only while a local
    offer is pending. *)
Definition handleAnswer (senderId : string) (st : ClientState) : ClientState :=
  match peerConnections st !! senderId with
  | None => st
  | Some pc =>
      if decide (signalingState pc = have_local_offer) then
        set_peerConnections st
          (<[senderId := set_signalingState pc stable]> (peerConnections st))
      else st
  end.

End Negotiation.

Import Cors SummaryController ChatClient Negotiation.

(** ** One step of the store, as seen from one meeting *)

(** Where the meeting object a handler works on comes from: it is resident,
    or it was just built from the durable record. *)
Definition resolved_from (st : ServerState) (env : Env) (mid : string)
    (m : InMemoryMeeting) : Prop :=
  meetings st !! mid = Some m ∨
  (meetings st !! mid = None ∧
   ∃ d, env_db env mid = Some d ∧
        m = new_meeting mid (db_host_userId d) (db_host_username d) (db_title d)
              (env_now env)).

(** What one event can do to the meeting it resolves. *)
Inductive Change (mid : string) : Event → InMemoryMeeting → InMemoryMeeting → Prop :=
| ch_same ev m : Change mid ev m m
| ch_add ev m uid uname sock now :
    Change mid ev m (addParticipant m uid uname sock now).1
| ch_remove ev m uid now : Change mid ev m (removeParticipant m uid now)
| ch_update ev m uid u now : Change mid ev m (updateParticipant m uid u now)
| ch_message ev m msg : Change mid ev m (addMessage m msg)
| ch_vote ev m pollId uid oi :
    Change mid ev m (set_messages m (voteOnPoll pollId uid oi (messages m)))
| ch_transcript ev m uid uname txt fin now :
    Change mid ev m (addTranscript m uid uname txt fin now)
| ch_end m now : Change mid (HttpEnd mid (host m)) m (set_ended m now).

(** The meeting a request is addressed to, for the requests that are dropped
    when that meeting cannot be resolved. *)
Definition addressed (ev : Event) : option string :=
  match ev with
  | ChatMessage _ d | FileShare _ d => Some (c_meetingId d)
  | CreatePoll _ d => Some (pl_meetingId d)
  | GetChatHistory _ mid => Some mid
  | Transcript _ d => Some (td_meetingId d)
  | ToggleAudio _ d | ToggleVideo _ d | RaiseHand _ d | ScreenShare _ d =>
      Some (tg_meetingId d)
  | HostMuteParticipant _ d | HostKickParticipant _ d => Some (md_meetingId d)
  | _ => None
  end.

(** A stored transcript text: not empty, no white space at either end. *)
Definition text_ok (t : TranscriptEntry) : Prop :=
  t_text t ≠ ""%string ∧ trim (t_text t) = t_text t.

(** How a list of origins is written in [ALLOWED_ORIGINS]: separated by commas. *)
Fixpoint join_comma (os : list string) : string :=
  match os with
  | [] => ""
  | [o] => o
  | o :: os' => o +:+ String comma (join_comma os')
  end.

Fixpoint has_comma (s : string) : bool :=
  match s with
  | EmptyString => false
  | String c r => bool_decide (c = comma) || has_comma r
  end.

(** ** Deterministic initiator selection *)

Section Initiator.

Lemma shouldInitiate_asym (a b : string) :
  shouldInitiate a b = true → shouldInitiate b a = false.
Proof.
  unfold shouldInitiate, String.ltb.
  rewrite (String.compare_antisym a b).
  by destruct (String.compare b a).
Qed.

Lemma shouldInitiate_total (a b : string) :
  a ≠ b → shouldInitiate a b = false → shouldInitiate b a = true.
Proof.
  unfold shouldInitiate, String.ltb. intros Hne.
  rewrite (String.compare_antisym b a).
  destruct (String.compare a b) eqn:E; simpl; try done.
  by apply String.compare_eq_iff in E.
Qed.

Lemma shouldInitiate_flip (a b : string) :
  a ≠ b → shouldInitiate a b = negb (shouldInitiate b a).
Proof.
  intros Hne. destruct (shouldInitiate b a) eqn:E; simpl.
  - by apply shouldInitiate_asym.
  - by apply shouldInitiate_total.
Qed.


(** What [connect_to] leaves in the peer-connection map. *)
Lemma connect_to_lookup (r k : string) (st : ClientState) :
  socketId (connect_to r st).1 = socketId st ∧
  localStream (connect_to r st).1 = localStream st ∧
  peerConnections (connect_to r st).1 !! k =
    match peerConnections st !! k with
    | Some pc => Some pc
    | None => if decide (k = r) then Some (mkPc stable (id_lt (socketId st) r))
              else None
    end.
Proof.
  unfold connect_to. case_bool_decide as Hpc.
  - simpl. repeat split. destruct (peerConnections st !! k) eqn:E; [done|].
    case_decide; [|done]. subst. rewrite E in Hpc. by destruct Hpc.
  - simpl. repeat split.
    assert (peerConnections st !! r = None) as Hr.
    { destruct (peerConnections st !! r); [|done]. destruct Hpc; eauto. }
    destruct (decide (k = r)) as [->|Hne].
    + by rewrite lookup_insert_eq, Hr.
    + rewrite lookup_insert_ne by done. by destruct (peerConnections st !! k).
Qed.

Lemma connect_to_actions (r : string) (st : ClientState) (x : Action) :
  x ∈ (connect_to r st).2 ↔
  (peerConnections st !! r = None ∧ id_lt (socketId st) r = true ∧
   x = OfferTimer 1500 r false).
Proof.
  unfold connect_to, createPeerConnection.
  destruct (peerConnections st !! r) eqn:Hr.
  - rewrite bool_decide_eq_true_2 by eauto. simpl.
    rewrite elem_of_nil. intuition congruence.
  - rewrite bool_decide_eq_false_2 by (by intros [? ?]). simpl.
    destruct (id_lt (socketId st) r); simpl.
    + rewrite !elem_of_cons, elem_of_nil. intuition congruence.
    + rewrite elem_of_nil. intuition congruence.
Qed.

(** The [joined-meeting] loop: connections that existed stay as they are and
    every listed live remote id without one gets a connection whose
    initiator flag is the comparison with the current local id. *)
Lemma joined_fold_lookup (roster : list (option string)) :
  ∀ (acc : ClientState * list Action) (k : string),
    let res := foldl joined_one acc roster in
    socketId res.1 = socketId acc.1 ∧
    peerConnections res.1 !! k =
      match peerConnections acc.1 !! k with
      | Some pc => Some pc
      | None =>
          if decide (Some k ∈ roster ∧ k ≠ ""%string ∧ Some k ≠ socketId acc.1)
          then Some (mkPc stable (id_lt (socketId acc.1) k))
          else None
      end.
Proof.
  induction roster as [|o roster IH]; intros acc k; cbn [foldl].
  - split; [done|]. destruct (peerConnections acc.1 !! k); [done|].
    case_decide as H; [|done]. destruct H as [H _]. by apply elem_of_nil in H.
  - assert (socketId (joined_one acc o).1 = socketId acc.1 ∧
            peerConnections (joined_one acc o).1 !! k =
              match peerConnections acc.1 !! k with
              | Some pc => Some pc
              | None => if decide (o = Some k ∧ k ≠ ""%string ∧ Some k ≠ socketId acc.1)
                        then Some (mkPc stable (id_lt (socketId acc.1) k)) else None
              end) as [Hs Hl].
    { unfold joined_one. destruct o as [r|].
      - case_bool_decide as Hr; [|case_bool_decide as Hself].
        + split; [done|]. destruct (peerConnections acc.1 !! k); [done|].
          case_decide as H; [|done]. destruct H as (H & ? & ?). congruence.
        + split; [done|]. destruct (peerConnections acc.1 !! k); [done|].
          case_decide as H; [|done]. destruct H as (H & ? & ?). congruence.
        + destruct (connect_to_lookup r k acc.1) as (Hcs & _ & Hcl).
          destruct (connect_to r acc.1) as [st' acts]. simpl in *.
          split; [done|]. rewrite Hcl.
          destruct (peerConnections acc.1 !! k); [done|].
          destruct (decide (k = r)) as [->|Hkr].
          * rewrite decide_True; [done|]. repeat split; congruence.
          * rewrite decide_False; [done|]. intros (H & _); congruence.
      - split; [done|]. destruct (peerConnections acc.1 !! k); [done|].
        case_decide as H; [|done]. by destruct H. }
    destruct (IH (joined_one acc o) k) as [IHs IHl]. simpl in IHs, IHl.
    split; [congruence|]. rewrite IHl, Hl, Hs.
    destruct (peerConnections acc.1 !! k); [done|].
    destruct (decide (o = Some k ∧ k ≠ ""%string ∧ Some k ≠ socketId acc.1))
      as [(-> & ? & ?)|Hno].
    + rewrite decide_True; [done|]. repeat split; [left|..]; done.
    + destruct (decide (Some k ∈ roster ∧ k ≠ ""%string ∧ Some k ≠ socketId acc.1))
        as [(? & ? & ?)|Hno'].
      * rewrite decide_True; [done|]. repeat split; [by right|done..].
      * rewrite decide_False; [done|]. intros (Hin & ? & ?).
        apply elem_of_cons in Hin as [Hin|Hin]; [apply Hno|apply Hno']; done.
Qed.

Lemma joined_one_actions (acc : ClientState * list Action) (o : option string)
    (x : Action) :
  x ∈ (joined_one acc o).2 ↔
  x ∈ acc.2 ∨
  ∃ r, o = Some r ∧ r ≠ ""%string ∧ Some r ≠ socketId acc.1 ∧
       peerConnections acc.1 !! r = None ∧ id_lt (socketId acc.1) r = true ∧
       x = OfferTimer 1500 r false.
Proof.
  unfold joined_one. destruct o as [r|].
  - case_bool_decide as Hr; [|case_bool_decide as Hself].
    + split; [by left|]. intros [?|(r' & ? & ? & _)]; [done|congruence].
    + split; [by left|]. intros [?|(r' & ? & ? & ? & _)]; [done|congruence].
    + pose proof (connect_to_actions r acc.1 x) as Hc.
      destruct (connect_to r acc.1) as [st' acts]. simpl in *.
      rewrite elem_of_app, Hc. split.
      * intros [?|(? & ? & ?)]; [by left|right]. exists r. repeat split; done.
      * intros [?|(r' & ? & ? & ? & ? & ? & ?)]; [by left|right].
        simplify_eq. done.
  - split; [by left|]. intros [?|(r' & ? & _)]; [done|congruence].
Qed.

(** The offers scheduled by the [joined-meeting] loop. *)
Lemma joined_fold_actions (roster : list (option string)) :
  ∀ (acc : ClientState * list Action) (x : Action),
    x ∈ (foldl joined_one acc roster).2 ↔
    x ∈ acc.2 ∨
    ∃ r, Some r ∈ roster ∧ r ≠ ""%string ∧ Some r ≠ socketId acc.1 ∧
         peerConnections acc.1 !! r = None ∧ id_lt (socketId acc.1) r = true ∧
         x = OfferTimer 1500 r false.
Proof.
  induction roster as [|o roster IH]; intros acc x; cbn [foldl].
  - split; [by left|]. intros [?|(r & Hin & _)]; [done|].
    by apply elem_of_nil in Hin.
  - rewrite IH, joined_one_actions.
    destruct (joined_fold_lookup [o] acc ""%string) as [Hs _].
    cbn [foldl] in Hs. rewrite Hs. split.
    + intros [[?|(r & ? & ? & ? & ? & ? & ?)]|(r & ? & ? & ? & Hnone & ? & ?)].
      * by left.
      * right. exists r. subst. repeat split; try done. by left.
      * right. exists r. repeat split; try done; [by right|].
        destruct (joined_fold_lookup [o] acc r) as [_ Hl]. cbn [foldl] in Hl.
        rewrite Hl in Hnone. by destruct (peerConnections acc.1 !! r).
    + intros [?|(r & Hin & ? & ? & Hnone & ? & ?)]; [by left; left|].
      destruct (decide (o = Some r)) as [->|Hne].
      * left; right. exists r. done.
      * right. exists r. apply elem_of_cons in Hin as [Hin|Hin]; [congruence|].
        repeat split; try done.
        destruct (joined_fold_lookup [o] acc r) as [_ Hl]. cbn [foldl] in Hl.
        rewrite Hl, Hnone. rewrite decide_False; [done|].
        intros (Ho & _). apply list_elem_of_singleton in Ho. congruence.
Qed.

(** What the updater of [user-joined] leaves of the peer-connection map: the
    connection to the id just announced is never the one it cleans up. *)
Lemma rejoined_lookup (uid uname remote : string) (st : ClientState) :
  socketId (rejoined uid uname remote st).1 = socketId st ∧
  localStream (rejoined uid uname remote st).1 = localStream st ∧
  peerConnections (rejoined uid uname remote st).1 !! remote =
    peerConnections st !! remote ∧
  (∀ x, x ∈ (rejoined uid uname remote st).2 → ∃ old, x = Closed old ∧ old ≠ remote).
Proof.
  unfold rejoined.
  destruct (list_find _ (cl_participants st)) as [[i e]|]; [|by split_and!; [..|intros x []%elem_of_nil]].
  case_decide as Hne; [|by split_and!; [..|intros x []%elem_of_nil]].
  destruct (pv_socketId e) as [old|]; [|by split_and!; [..|intros x []%elem_of_nil]].
  assert (old ≠ remote) by congruence.
  unfold cleanupPeerConnection.
  destruct (peerConnections st !! old) eqn:Hold; simpl.
  - split_and!; try done.
    + by rewrite lookup_delete_ne.
    + intros x ->%list_elem_of_singleton. eauto.
  - split_and!; try done. intros x []%elem_of_nil.
Qed.

(** Links that neither side holds yet. Two peers with distinct connection
    ids decide independently who sends the first offer, and they agree: the
    comparison "local id sorts before remote id" holds on exactly one of the
    two sides. Peer A, already in the room, handles [user-joined] for B;
    peer B handles [joined-meeting] with A in the roster. The connection
    each creates carries the comparison of its current connection id with
    the id it was just told, and exactly the side whose id is smaller
    schedules the offer. *)
Lemma initiator_agreement (a b ub nb : string) (roster : list ParticipantView)
    (stA stB : ClientState) :
  a ≠ b → a ≠ ""%string → b ≠ ""%string →
  socketId stA = Some a → socketId stB = Some b →
  localStream stA = true → localStream stB = true →
  peerConnections stA !! b = None → peerConnections stB !! a = None →
  Some a ∈ pv_socketId <$> roster →
  let A := on_user_joined ub nb b stA in
  let B := on_joined_meeting roster stB in
  shouldInitiate a b = negb (shouldInitiate b a) ∧
  isInitiator <$> peerConnections A.1 !! b = Some (shouldInitiate a b) ∧
  isInitiator <$> peerConnections B.1 !! a = Some (shouldInitiate b a) ∧
  (OfferTimer 1500 b false ∈ A.2 ↔ shouldInitiate a b = true) ∧
  (OfferTimer 1500 a false ∈ B.2 ↔ shouldInitiate b a = true).
Proof.
  intros Hab Ha Hb HsA HsB HlA HlB HpA HpB Hin A B.
  split; [by apply shouldInitiate_flip|].
  destruct (rejoined_lookup ub nb b stA) as (Hrs & Hrl & Hrp & Hra).
  assert (A = ((connect_to b (rejoined ub nb b stA).1).1,
               (rejoined ub nb b stA).2 ++ (connect_to b (rejoined ub nb b stA).1).2))
    as HA.
  { unfold A, on_user_joined. destruct (rejoined ub nb b stA) as [st1 acts1].
    simpl in *. rewrite Hrl, HlA, Hrs, HsA.
    rewrite bool_decide_eq_false_2 by done.
    rewrite bool_decide_eq_false_2 by congruence. simpl.
    by destruct (connect_to b st1). }
  assert (B = foldl joined_one
                (set_cl_participants stB
                   (self_entry stB :: deduplicated [cl_userId stB] roster), [])
                (pv_socketId <$> roster)) as HB.
  { unfold B, on_joined_meeting. simpl. by rewrite HlB. }
  repeat split.
  - rewrite HA. simpl.
    destruct (connect_to_lookup b b (rejoined ub nb b stA).1) as (_ & _ & ->).
    rewrite Hrp, HpA, decide_True by done. by rewrite Hrs, HsA.
  - rewrite HB. destruct (joined_fold_lookup (pv_socketId <$> roster)
      (set_cl_participants stB (self_entry stB :: deduplicated [cl_userId stB] roster), [])
      a) as [_ ->].
    simpl. rewrite HpB, HsB, decide_True; [done|].
    split_and!; [done..|]. intros [= ?]. by apply Hab.
  - rewrite HA. simpl. intros [H|H]%elem_of_app.
    + apply Hra in H as (old & [=] & _).
    + apply connect_to_actions in H as (_ & H & _). by rewrite Hrs, HsA in H.
  - rewrite HA. simpl. intros H. apply elem_of_app. right.
    apply connect_to_actions. by rewrite Hrp, Hrs, HsA.
  - rewrite HB. intros [H|(r & _ & _ & _ & _ & H & ?)]%joined_fold_actions.
    + by apply elem_of_nil in H.
    + simplify_eq. simpl in H. by rewrite HsB in H.
  - rewrite HB. intros H. apply joined_fold_actions. right. exists a. simpl.
    rewrite HsB. split_and!; try done. intros [= ?]. by apply Hab.
Qed.








End Initiator.

(** ** Glare resolution *)

Section Glare.

(** C2, as the code has it. When an offer arrives for a connection with a
    pending local offer, the side whose connection id sorts first, the
    deterministic initiator, rolls its own offer back, takes the remote
    offer and answers it; the side whose id does not sort first leaves its
    own offer pending and ignores the remote one, and so does a side that
    does not know its own id ([socket.id] undefined or empty). *)
Theorem glare_resolution (sender : string) (st : ClientState) (pc : PeerConnection) :
  peerConnections st !! sender = Some pc →
  signalingState pc = have_local_offer →
  (∀ l, socketId st = Some l → l ≠ ""%string → shouldInitiate l sender = true →
     handleOffer sender st =
       (set_peerConnections st
          (<[sender := mkPc stable (isInitiator pc)]> (peerConnections st)),
        [Rollback sender; RemoteOfferSet sender; AnswerSent sender])) ∧
  (∀ l, socketId st = Some l → shouldInitiate l sender = false →
     handleOffer sender st = (st, [])) ∧
  (socketId st = None ∨ socketId st = Some ""%string →
     handleOffer sender st = (st, [])).
Proof.
  intros Hpc Hst. unfold handleOffer. rewrite Hpc.
  rewrite decide_True by done. unfold rolls_back. split_and!.
  - intros l -> Hl ->. rewrite bool_decide_eq_false_2 by done. simpl.
    repeat (rewrite lookup_insert_eq; simpl).
    unfold set_peerConnections. simpl. by rewrite insert_insert_eq.
  - intros l -> ->. by rewrite andb_false_r.
  - by intros [->| ->].
Qed.

Lemma glare_resolution_witness :
  let stA := mkClient (Some "a1"%string) true
               {[ "b2"%string := mkPc have_local_offer true ]} "u1" "Uma" [] in
  let stB := mkClient (Some "b2"%string) true
               {[ "a1"%string := mkPc have_local_offer false ]} "u2" "Vik" [] in
  let stU := mkClient None true
               {[ "a1"%string := mkPc have_local_offer false ]} "u2" "Vik" [] in
  handleOffer "b2" stA =
    (set_peerConnections stA (<["b2"%string := mkPc stable true]> (peerConnections stA)),
     [Rollback "b2"; RemoteOfferSet "b2"; AnswerSent "b2"]) ∧
  handleOffer "a1" stB = (stB, []) ∧
  handleOffer "a1" stU = (stU, []).
Proof.
  intros stA stB stU.
  destruct (glare_resolution "b2" stA (mkPc have_local_offer true) eq_refl eq_refl)
    as (HA & _ & _).
  destruct (glare_resolution "a1" stB (mkPc have_local_offer false) eq_refl eq_refl)
    as (_ & HB & _).
  destruct (glare_resolution "a1" stU (mkPc have_local_offer false) eq_refl eq_refl)
    as (_ & _ & HU).
  split_and!.
  - by apply (HA "a1"%string).
  - by apply (HB "b2"%string).
  - apply HU. by left.
Defined.

(** C2 as stated fails: the peer with connection id "b2" is not the
    initiator towards "a1", has an offer pending and receives the offer of
    "a1"; it neither rolls back nor answers. *)
Lemma glare_non_initiator_counterexample :
  let st := mkClient (Some "b2"%string) true
              {[ "a1"%string := mkPc have_local_offer false ]} "u2" "Vik" [] in
  ¬ (shouldInitiate "b2" "a1" = false →
     Rollback "a1" ∈ (handleOffer "a1" st).2 ∧ AnswerSent "a1" ∈ (handleOffer "a1" st).2).
Proof.
  intros st H. destruct H as [H _]; [done|].
  vm_compute in H. by apply elem_of_nil in H.
Qed.

End Glare.

(** ** Invariants of the session store *)

Section StoreInvariants.

Lemma set_messages_id (m : InMemoryMeeting) : set_messages m (messages m) = m.
Proof. by destruct m. Qed.

Lemma push_bounded_length {A} (cap : nat) (l : list A) (x : A) :
  length l ≤ cap → length (push_bounded cap l x) ≤ cap.
Proof.
  intros Hl. unfold push_bounded. case_decide as Hc; [|lia].
  destruct l as [|y l]; simpl in *; [lia|].
  rewrite length_app. simpl. lia.
Qed.

(** On overflow the oldest entry goes and the others keep their order. *)
Lemma push_bounded_full {A} (cap : nat) (l : list A) (x : A) :
  0 < cap → length l = cap → push_bounded cap l x = tail l ++ [x].
Proof.
  intros Hcap Hl. unfold push_bounded. rewrite decide_True.
  - destruct l as [|y l]; simpl in *; [lia|done].
  - rewrite length_app. simpl. lia.
Qed.

Lemma push_bounded_room {A} (cap : nat) (l : list A) (x : A) :
  length l < cap → push_bounded cap l x = l ++ [x].
Proof.
  intros Hl. unfold push_bounded. rewrite decide_False; [done|].
  rewrite length_app. simpl. lia.
Qed.

Lemma tail_drop {A} (n : nat) (l : list A) : tail (drop n l) = drop (S n) l.
Proof.
  revert n. induction l as [|y ys IH]; intros [|n]; simpl; auto.
Qed.

(** A log filled by [push_bounded] from the empty log holds the last [cap]
    entries pushed, in the order they came. *)
Lemma push_bounded_window {A} (cap : nat) (xs : list A) :
  0 < cap → foldl (push_bounded cap) [] xs = drop (length xs - cap) xs.
Proof.
  intros Hcap. induction xs as [|x xs IH] using rev_ind; [done|].
  rewrite foldl_app. simpl. rewrite IH. rewrite length_app. simpl.
  destruct (decide (length xs < cap)) as [Hlt|Hge].
  - rewrite push_bounded_room.
    + replace (length xs - cap) with 0 by lia.
      replace (length xs + 1 - cap) with 0 by lia. done.
    + rewrite length_drop. lia.
  - rewrite push_bounded_full by (rewrite ?length_drop; lia).
    replace (length xs + 1 - cap) with (S (length xs - cap)) by lia.
    rewrite drop_app_le by lia. f_equal. apply tail_drop.
Qed.

Lemma new_meeting_ok (mid h hu t : string) (now : Z) : meeting_ok (new_meeting mid h hu t now).
Proof. repeat split; simpl; try lia. apply NoDup_nil_2. Qed.

Lemma addActivity_ok m ty uid uname now : meeting_ok m → meeting_ok (addActivity m ty uid uname now).
Proof.
  intros (? & ? & ? & ?). repeat split; try done. simpl.
  by apply push_bounded_length.
Qed.

Lemma addActivity_participants m ty uid uname now :
  participants (addActivity m ty uid uname now) = participants m.
Proof. done. Qed.

Lemma userIds_filter_ne (uid : string) (ps : list Participant) :
  p_userId <$> filter (λ p, p_userId p ≠ uid) ps = filter (λ u, u ≠ uid) (p_userId <$> ps).
Proof.
  induction ps as [|p ps IH]; [done|].
  rewrite fmap_cons, !filter_cons. case_decide; by rewrite ?fmap_cons, IH.
Qed.

Lemma addParticipant_ok m uid uname sock now :
  meeting_ok m → meeting_ok (addParticipant m uid uname sock now).1.
Proof.
  intros (Hnd & ? & ? & ?). apply addActivity_ok. repeat split; try done.
  unfold userIds, set_participants. cbn [participants].
  rewrite fmap_app, userIds_filter_ne. cbn [fmap list_fmap p_userId].
  apply NoDup_app. split_and!.
  - by apply NoDup_filter.
  - intros u [Hu _]%list_elem_of_filter ->%list_elem_of_singleton. done.
  - apply NoDup_singleton.
Qed.

Lemma removeParticipant_ok m uid now : meeting_ok m → meeting_ok (removeParticipant m uid now).
Proof.
  intros Hok. unfold removeParticipant.
  set (m1 := match getParticipant m uid with Some p => _ | None => m end).
  assert (meeting_ok m1) as (Hnd & ? & ? & ?).
  { unfold m1. destruct (getParticipant m uid); [by apply addActivity_ok|done]. }
  repeat split; try done. unfold userIds, set_participants in *.
  cbn [participants]. rewrite userIds_filter_ne. by apply NoDup_filter.
Qed.

Lemma assign_first_userIds (uid : string) (u : Updates) (ps : list Participant) :
  p_userId <$> assign_first uid u ps = p_userId <$> ps.
Proof.
  induction ps as [|p ps IH]; [done|]. cbn [assign_first].
  case_decide; rewrite !fmap_cons; [done|]. by rewrite IH.
Qed.

Lemma log_change_ok new old on off uid uname now m :
  meeting_ok m → meeting_ok (log_change new old on off uid uname now m).
Proof.
  intros Hok. unfold log_change. destruct new as [b|]; [|done].
  case_decide; [done|]. by apply addActivity_ok.
Qed.

Lemma log_change_participants new old on off uid uname now m :
  participants (log_change new old on off uid uname now m) = participants m.
Proof.
  unfold log_change. destruct new as [b|]; [|done]. by case_decide.
Qed.

Lemma updateParticipant_userIds m uid u now :
  userIds (updateParticipant m uid u now) = userIds m.
Proof.
  unfold updateParticipant, userIds. destruct (getParticipant m uid); [|done].
  unfold set_participants. cbn [participants].
  by rewrite assign_first_userIds, !log_change_participants.
Qed.

Lemma updateParticipant_ok m uid u now :
  meeting_ok m → meeting_ok (updateParticipant m uid u now).
Proof.
  intros Hok.
  assert (NoDup (userIds (updateParticipant m uid u now))) as Hnd.
  { rewrite updateParticipant_userIds. apply Hok. }
  revert Hnd. unfold updateParticipant. destruct (getParticipant m uid) as [p|]; [|done].
  intros Hnd.
  match goal with |- meeting_ok (set_participants ?m4 _) =>
    assert (meeting_ok m4) as (_ & ? & ? & ?) by (by repeat apply log_change_ok) end.
  by repeat split.
Qed.

Lemma addMessage_ok m msg : meeting_ok m → meeting_ok (addMessage m msg).
Proof.
  intros (? & ? & ? & ?). repeat split; try done. simpl. by apply push_bounded_length.
Qed.

Lemma addTranscript_ok m uid uname txt fin now :
  meeting_ok m → meeting_ok (addTranscript m uid uname txt fin now).
Proof.
  intros (? & ? & ? & ?). unfold addTranscript. case_decide; [done|].
  repeat split; try done. simpl. by apply push_bounded_length.
Qed.

Lemma set_ended_ok m now : meeting_ok m → meeting_ok (set_ended m now).
Proof. by intros (? & ? & ? & ?). Qed.

End StoreInvariants.

(** ** Resolution of a meeting and the invariant of the whole store *)

Section RelayInvariants.

Lemma set_meetings_id (st : ServerState) : set_meetings st (meetings st) = st.
Proof. by destruct st. Qed.

Lemma resolve_resident env mid st m :
  meetings st !! mid = Some m → resolve env mid st = (st, Some m).
Proof.
  intros H. unfold resolve, getMeeting. rewrite H. by rewrite set_meetings_id.
Qed.

(** [getMeeting] either finds the meeting resident and changes nothing, or
    puts a fresh shell built from the durable record under its key, or finds
    nothing and changes nothing. *)
Lemma resolve_cases env mid st :
  (∃ m, meetings st !! mid = Some m ∧ resolve env mid st = (st, Some m)) ∨
  (∃ d, meetings st !! mid = None ∧
        resolve env mid st =
          (set_meetings st
             (<[mid := new_meeting mid (db_host_userId d) (db_host_username d)
                         (db_title d) (env_now env)]> (meetings st)),
           Some (new_meeting mid (db_host_userId d) (db_host_username d)
                   (db_title d) (env_now env)))) ∨
  (meetings st !! mid = None ∧ resolve env mid st = (st, None)).
Proof.
  destruct (meetings st !! mid) as [m|] eqn:H.
  - left. exists m. split; [done|]. by apply resolve_resident.
  - right. unfold resolve, getMeeting. rewrite H.
    destruct (env_db env mid) as [d|].
    + destruct (db_isActive d || bool_decide (db_status d = "active"%string)).
      * left. by exists d.
      * right. by rewrite set_meetings_id.
    + right. by rewrite set_meetings_id.
Qed.

Lemma resolve_some env mid st st0 m :
  resolve env mid st = (st0, Some m) →
  meetings st0 !! mid = Some m ∧
  activeSockets st0 = activeSockets st ∧ rooms st0 = rooms st ∧
  (∀ k v, meetings st !! k = Some v → meetings st0 !! k = Some v) ∧
  (is_Some (meetings st !! mid) → st0 = st).
Proof.
  intros Hr.
  destruct (resolve_cases env mid st) as [(m' & Hm & Hr')|[(d & Hm & Hr')|(Hm & Hr')]];
    rewrite Hr' in Hr; simplify_eq.
  - by split_and!.
  - split_and!; simpl; try done.
    + by rewrite lookup_insert_eq.
    + intros k v Hk. rewrite lookup_insert_ne; [done|]. congruence.
    + rewrite Hm. by intros [? ?].
Qed.

Lemma resolve_none env mid st st0 :
  resolve env mid st = (st0, None) → st0 = st ∧ meetings st !! mid = None.
Proof.
  intros Hr.
  destruct (resolve_cases env mid st) as [(m' & Hm & Hr')|[(d & Hm & Hr')|(Hm & Hr')]];
    rewrite Hr' in Hr; by simplify_eq.
Qed.

Lemma init_ok : store_ok init.
Proof. intros mid m H. simpl in H. by rewrite lookup_empty in H. Qed.

Lemma store_ok_insert st mid m :
  store_ok st → meeting_ok m → store_ok (store mid m st).
Proof.
  intros Hst Hm k v. unfold store. simpl.
  destruct (decide (mid = k)) as [->|Hne].
  - rewrite lookup_insert_eq. by intros [= <-].
  - rewrite lookup_insert_ne by done. apply Hst.
Qed.

Lemma store_ok_rooms st r : store_ok st → store_ok (set_rooms st r).
Proof. done. Qed.

Lemma store_ok_sockets st a : store_ok st → store_ok (set_activeSockets st a).
Proof. done. Qed.

Lemma resolve_ok env mid st st0 om :
  store_ok st → resolve env mid st = (st0, om) →
  store_ok st0 ∧ ∀ m, om = Some m → meeting_ok m.
Proof.
  intros Hst Hr.
  destruct (resolve_cases env mid st) as [(m' & Hm & Hr')|[(d & Hm & Hr')|(Hm & Hr')]];
    rewrite Hr' in Hr; simplify_eq.
  - split; [done|]. intros m [= <-]. by eapply Hst.
  - split.
    + apply (store_ok_insert st mid); [done|apply new_meeting_ok].
    + intros m [= <-]. apply new_meeting_ok.
  - by split.
Qed.

Create HintDb store_inv.
#[local] Hint Resolve store_ok_insert store_ok_rooms store_ok_sockets addParticipant_ok
  removeParticipant_ok updateParticipant_ok addMessage_ok addTranscript_ok
  set_ended_ok new_meeting_ok : store_inv.

(** Handlers that resolve a meeting and then store a meeting that satisfies
    the invariant, or leave the store as resolved. *)
Ltac resolve_step Hst :=
  match goal with
  | |- context [resolve ?env ?mid ?st] =>
      let st0 := fresh "st0" in let om := fresh "om" in
      let Hr := fresh "Hr" in let Hst0 := fresh "Hst0" in let Hom := fresh "Hom" in
      destruct (resolve env mid st) as [st0 om] eqn:Hr;
      destruct (resolve_ok env mid st st0 om Hst Hr) as [Hst0 Hom];
      destruct om as [?m|]; [specialize (Hom _ eq_refl)|clear Hom];
      cbn [fst snd]
  end.

Lemma voted_ok m pollId uid oi :
  meeting_ok m → meeting_ok (set_messages m (Relay.voteOnPoll pollId uid oi (messages m))).
Proof.
  intros (? & ? & ? & ?). repeat split; try done. simpl.
  unfold voteOnPoll. destruct (list_find _ _) as [[i p]|]; [|done].
  by rewrite length_insert.
Qed.

Lemma step_ok env ev st : store_ok st → store_ok (step env ev st).1.
Proof.
  intros Hst. destruct ev; cbn [step];
    unfold on_join_meeting, on_leave_meeting, on_disconnect, on_signal,
      on_chat_message, on_file_share, on_create_poll, on_vote_poll,
      on_get_chat_history, on_transcript, on_toggle_audio, on_toggle_video,
      on_raise_hand, on_screen_share, on_toggle, on_host_mute_participant,
      on_host_kick_participant, http_createMeeting, http_getMeeting,
      http_joinMeeting, http_leaveMeeting, http_endMeeting;
    try done.
  - (* join-meeting *)
    resolve_step Hst; [|done]. destruct (isActive m); [|done].
    destruct (getParticipant m (j_userId d)) as [ex|]; cbn [fst snd].
    + destruct (p_socketId ex) as [old|];
        [destruct (truthy (Some old) && negb (bool_decide (old = sid)))|];
        cbn [fst snd]; eauto 6 with store_inv.
    + eauto 6 with store_inv.
  - (* leave-meeting *)
    resolve_step Hst; cbn [fst snd]; eauto 6 with store_inv.
  - (* disconnect *)
    destruct (activeSockets st !! sid) as [s|]; [|done].
    resolve_step Hst; done.
  - resolve_step Hst; eauto 6 with store_inv.
  - resolve_step Hst; eauto 6 with store_inv.
  - resolve_step Hst; eauto 6 with store_inv.
  - (* vote-poll *)
    resolve_step Hst; [|done]. apply store_ok_insert; [done|]. by apply voted_ok.
  - resolve_step Hst; done.
  - resolve_step Hst; [|done]. case_decide; cbn [fst]; eauto 6 with store_inv.
  - resolve_step Hst; eauto 6 with store_inv.
  - resolve_step Hst; eauto 6 with store_inv.
  - resolve_step Hst; eauto 6 with store_inv.
  - resolve_step Hst; eauto 6 with store_inv.
  - resolve_step Hst; [|done]. case_decide; cbn [fst]; eauto 6 with store_inv.
  - resolve_step Hst; [|done]. case_decide; cbn [fst]; [|done].
    destruct (env_connected env (md_targetSocketId d)); eauto 6 with store_inv.
  - (* create *)
    cbn [fst]. intros k v. unfold createMeeting. simpl.
    destruct (decide (env_uuid env = k)) as [->|Hne].
    + rewrite lookup_insert_eq. intros [= <-]. apply new_meeting_ok.
    + rewrite lookup_insert_ne by done. apply Hst.
  - resolve_step Hst; done.
  - resolve_step Hst; [|done]. destruct (isActive m); cbn [fst]; eauto 6 with store_inv.
  - resolve_step Hst; eauto 6 with store_inv.
  - resolve_step Hst; [|done]. case_decide; cbn [fst]; eauto 6 with store_inv.
Qed.

Lemma run_app evs evs' st : run (evs ++ evs') st = run evs' (run evs st).
Proof. apply foldl_app. Qed.

Lemma run_ok evs st : store_ok st → store_ok (run evs st).
Proof.
  revert st. induction evs as [|[env ev] evs IH]; intros st Hst; [done|].
  simpl. apply IH. by apply step_ok.
Qed.

End RelayInvariants.

(** ** One participant entry per user *)

Section Participants.

Lemma getParticipant_Some m uid p :
  getParticipant m uid = Some p → p_userId p = uid ∧ p ∈ participants m.
Proof.
  unfold getParticipant. destruct (list_find _ _) as [[i q]|] eqn:E; [|done].
  simpl. intros [= <-]. apply list_find_Some in E as (Hi & Hq & _).
  split; [done|]. by eapply list_elem_of_lookup_2.
Qed.

Lemma getParticipant_present m uid :
  uid ∈ userIds m → is_Some (getParticipant m uid).
Proof.
  unfold userIds, getParticipant. intros (p & Hp & Hin)%list_elem_of_fmap.
  destruct (list_find (λ p, p_userId p = uid) (participants m)) as [[i q]|] eqn:E.
  - by eexists.
  - apply list_find_None in E. rewrite Forall_forall in E.
    exfalso. by eapply E.
Qed.

Lemma getParticipant_absent m uid :
  getParticipant m uid = None → uid ∉ userIds m.
Proof.
  intros Hnone Hin. apply getParticipant_present in Hin as [p Hp]. congruence.
Qed.

Lemma entries_none (uid : string) (ps : list Participant) :
  uid ∉ p_userId <$> ps → filter (λ p, p_userId p = uid) ps = [].
Proof.
  induction ps as [|p ps IH]; [done|]. rewrite fmap_cons, not_elem_of_cons.
  intros [Hne Hnin]. rewrite filter_cons, decide_False by done. by apply IH.
Qed.

Lemma entries_one (uid : string) (ps : list Participant) :
  NoDup (p_userId <$> ps) → uid ∈ p_userId <$> ps →
  length (filter (λ p, p_userId p = uid) ps) = 1.
Proof.
  induction ps as [|p ps IH]; [by intros _ ?%elem_of_nil|].
  rewrite fmap_cons, NoDup_cons, elem_of_cons, filter_cons.
  intros [Hnin Hnd] Hin. case_decide as Hp.
  - simpl. rewrite entries_none; [done|]. by rewrite <- Hp.
  - destruct Hin as [->|Hin]; [done|]. by apply IH.
Qed.

Lemma others_length (uid : string) (ps : list Participant) :
  length (filter (λ p, p_userId p ≠ uid) ps) + length (filter (λ p, p_userId p = uid) ps)
  = length ps.
Proof.
  induction ps as [|p ps IH]; [done|]. rewrite !filter_cons.
  destruct (decide (p_userId p = uid)) as [Heq|Hne].
  - rewrite decide_False by (by intros ?). simpl. lia.
  - rewrite decide_True by done. simpl. lia.
Qed.

(** C3. In every state the server can reach, no meeting lists two
    participants with the same user id. When a user who is already listed
    joins again, over the socket or over HTTP, the list keeps its length and
    holds exactly one entry for that user. *)
Theorem participants_unique (evs : list (Env * Event)) (env : Env)
    (mid uid : string) (m : InMemoryMeeting) :
  let st := run evs init in
  meetings st !! mid = Some m →
  NoDup (userIds m) ∧
  (uid ∈ userIds m →
   ∀ ev, ((∃ sid uname, ev = JoinMeeting sid (mkJoin mid uid uname)) ∨
          (∃ uname, ev = HttpJoin mid uid uname)) →
     ∃ m', meetings (step env ev st).1 !! mid = Some m' ∧
           NoDup (userIds m') ∧
           length (participants m') = length (participants m) ∧
           length (filter (λ p, p_userId p = uid) (participants m')) = 1).
Proof.
  intros st Hm.
  assert (store_ok st) as Hst by (apply run_ok, init_ok).
  destruct (Hst _ _ Hm) as (Hnd & _). split; [done|].
  intros Hin ev Hev.
  assert (∃ m', meetings (step env ev st).1 !! mid = Some m' ∧
                length (participants m') = length (participants m) ∧
                uid ∈ userIds m') as (m' & Hm' & Hlen & Hin').
  { destruct Hev as [(sid & uname & ->)|(uname & ->)]; cbn [step].
    - unfold on_join_meeting. cbn [j_meetingId j_userId j_username].
      rewrite (resolve_resident _ _ _ _ Hm).
      destruct (isActive m); [|by exists m].
      destruct (getParticipant_present m uid Hin) as [ex ->].
      exists (updateParticipant m uid (mkUpdates (Some sid) None None None None)
                (env_now env)).
      split.
      + destruct (p_socketId ex) as [old|];
          [destruct (truthy (Some old) && negb (bool_decide (old = sid)))|];
          cbn [fst snd store meetings set_meetings]; apply lookup_insert_eq.
      + split.
        * rewrite <- !(length_fmap p_userId). fold (userIds m).
          by rewrite <- (updateParticipant_userIds m uid
                          (mkUpdates (Some sid) None None None None) (env_now env)).
        * by rewrite updateParticipant_userIds.
    - unfold http_joinMeeting. rewrite (resolve_resident _ _ _ _ Hm).
      destruct (isActive m); [|by exists m].
      exists (addParticipant m uid uname None (env_now env)).1.
      split; [apply lookup_insert_eq|].
      unfold addParticipant, userIds. cbn [fst participants addActivity set_activities
        set_participants]. split.
      + rewrite length_app. simpl.
        pose proof (others_length uid (participants m)) as Hl.
        rewrite (entries_one uid (participants m)) in Hl by done. lia.
      + rewrite fmap_app. apply elem_of_app. right. simpl. apply list_elem_of_here. }
  exists m'. assert (store_ok (step env ev st).1) as Hst' by by apply step_ok.
  destruct (Hst' _ _ Hm') as (Hnd' & _). split_and!; try done.
  by apply entries_one.
Qed.

Lemma participants_unique_witness :
  meetings (run demo_events init) !! "MEET0001"%string = Some demo_meeting ∧
  NoDup (userIds demo_meeting) ∧
  ∃ m', meetings
          (step demo_env (JoinMeeting "s9" (mkJoin "MEET0001" "u1" "Uma"))
             (run demo_events init)).1 !! "MEET0001"%string = Some m' ∧
        NoDup (userIds m') ∧
        length (participants m') = length (participants demo_meeting) ∧
        length (filter (λ p, p_userId p = "u1"%string) (participants m')) = 1.
Proof.
  assert (meetings (run demo_events init) !! "MEET0001"%string = Some demo_meeting) as H
    by (vm_compute; reflexivity).
  split; [exact H|].
  destruct (participants_unique demo_events demo_env "MEET0001" "u1" demo_meeting H)
    as [Hnd Hre].
  split; [exact Hnd|]. apply Hre.
  - vm_compute. constructor.
  - left. by exists "s9"%string, "Uma"%string.
Defined.

End Participants.

(** ** Bounded logs *)

Section Logs.

(** C6. In every state the server can reach, no meeting holds more than 500
    messages, 1000 transcript entries or 500 activities. A push onto a full
    log evicts the oldest entry and keeps the others in arrival order: the
    501st message leaves 500 messages, the first one gone; and a chat
    history filled from empty holds the last 500 messages appended. *)
Theorem logs_bounded (evs : list (Env * Event)) (mid : string) (m : InMemoryMeeting) :
  meetings (run evs init) !! mid = Some m →
  (length (messages m) ≤ 500 ∧ length (transcript m) ≤ 1000 ∧
   length (activities m) ≤ 500) ∧
  (∀ msg, length (messages m) = 500 →
     messages (addMessage m msg) = tail (messages m) ++ [msg] ∧
     length (messages (addMessage m msg)) = 500) ∧
  (∀ uid uname txt fin now, txt ≠ ""%string → trim txt ≠ ""%string →
     length (transcript m) = 1000 →
     transcript (addTranscript m uid uname txt fin now) =
       tail (transcript m) ++
       [mkTranscript uid uname (trim txt) (or_default (js_bool true) fin) now]) ∧
  (∀ ty uid uname now, length (activities m) = 500 →
     activities (addActivity m ty uid uname now) =
       tail (activities m) ++ [mkActivity ty uid uname now]) ∧
  (∀ msgs, messages m = [] →
     messages (foldl addMessage m msgs) = drop (length msgs - 500) msgs).
Proof.
  intros Hm.
  assert (store_ok (run evs init)) as Hst by (apply run_ok, init_ok).
  destruct (Hst _ _ Hm) as (_ & ? & ? & ?). split_and!; try done.
  - intros msg Hlen. simpl. rewrite push_bounded_full by lia.
    split; [done|]. rewrite length_app. simpl.
    destruct (messages m); simpl in *; lia.
  - intros uid uname txt fin now Ht Htr Hlen. unfold addTranscript.
    rewrite decide_False by (by intros [?|?]). simpl.
    by rewrite push_bounded_full by lia.
  - intros ty uid uname now Hlen. simpl. by rewrite push_bounded_full by lia.
  - intros msgs Hnil. rewrite <- (push_bounded_window 500 msgs) by lia.
    rewrite <- Hnil. clear. revert m.
    induction msgs as [|x xs IH]; intros m; [done|]. simpl. by rewrite IH.
Qed.

Lemma logs_bounded_witness :
  meetings (run demo_events init) !! "MEET0001"%string = Some demo_meeting ∧
  length (messages demo_meeting) ≤ 500 ∧ length (transcript demo_meeting) ≤ 1000 ∧
  length (activities demo_meeting) ≤ 500.
Proof.
  assert (meetings (run demo_events init) !! "MEET0001"%string = Some demo_meeting) as H
    by (vm_compute; reflexivity).
  split; [exact H|].
  exact (proj1 (logs_bounded demo_events "MEET0001" demo_meeting H)).
Defined.

End Logs.

(** ** Reconnect *)

Section Reconnect.

Lemma find_assign_first (uid : string) (u : Updates) (ps : list Participant) :
  list_find (λ p, p_userId p = uid) (assign_first uid u ps) =
  prod_map id (λ p, assign p u) <$> list_find (λ p, p_userId p = uid) ps.
Proof.
  induction ps as [|p ps IH]; [done|]. cbn [assign_first list_find].
  destruct (decide (p_userId p = uid)) as [Heq|Hne].
  - cbn [list_find]. rewrite decide_True by done. done.
  - cbn [list_find]. rewrite decide_False by done. rewrite IH.
    by destruct (list_find _ ps) as [[i q]|].
Qed.

Lemma getParticipant_updated m uid u now ex :
  getParticipant m uid = Some ex →
  getParticipant (updateParticipant m uid u now) uid = Some (assign ex u).
Proof.
  intros Hex. unfold updateParticipant. rewrite Hex.
  unfold getParticipant in *. unfold set_participants. cbn [participants].
  rewrite find_assign_first, !log_change_participants.
  destruct (list_find _ (participants m)) as [[i q]|]; [|done].
  simpl in *. congruence.
Qed.

(** C4. A join over a new connection by a user whose entry holds another,
    live connection id: the entry now holds the new id, the first output is
    a disconnect notice to the rest of the room that names the old id, the
    old id is no longer registered in [activeSockets], and the list of user
    ids of the meeting is what it was. *)
Theorem reconnect_replaces (env : Env) (sid : string) (d : JoinData) (st : ServerState)
    (m : InMemoryMeeting) (ex : Participant) (old : string) :
  meetings st !! j_meetingId d = Some m → isActive m = true →
  getParticipant m (j_userId d) = Some ex →
  p_socketId ex = Some old → old ≠ ""%string → old ≠ sid →
  let res := on_join_meeting env sid d st in
  ∃ m' p',
    meetings res.1 !! j_meetingId d = Some m' ∧
    getParticipant m' (j_userId d) = Some p' ∧ p_socketId p' = Some sid ∧
    userIds m' = userIds m ∧
    length (participants m') = length (participants m) ∧
    res.2 !! 0 = Some (Emit (SocketTo (j_meetingId d) sid) "user-disconnected"
                         (PPeerGone (j_userId d) (j_username d) old)) ∧
    activeSockets res.1 !! old = None ∧
    activeSockets res.1 !! sid =
      Some (mkSession (j_userId d) (j_username d) (j_meetingId d)).
Proof.
  intros Hm Hact Hex Hsock Hold Hne res.
  set (upd := mkUpdates (Some sid) None None None None).
  exists (updateParticipant m (j_userId d) upd (env_now env)), (assign ex upd).
  assert (res = on_join_meeting env sid d st) as Hres by done. clearbody res.
  unfold on_join_meeting in Hres.
  rewrite (resolve_resident _ _ _ _ Hm), Hact, Hex, Hsock in Hres.
  unfold truthy in Hres.
  rewrite (bool_decide_eq_false_2 (old = ""%string)) in Hres by done.
  rewrite (bool_decide_eq_false_2 (old = sid)) in Hres by done.
  cbn [negb andb] in Hres. subst res. cbn [fst snd store set_meetings meetings].
  split_and!.
  - apply lookup_insert_eq.
  - by apply getParticipant_updated.
  - done.
  - apply updateParticipant_userIds.
  - rewrite <- !(length_fmap p_userId). fold (userIds m).
    by rewrite <- (updateParticipant_userIds m (j_userId d) upd (env_now env)).
  - done.
  - simpl. apply lookup_delete_eq.
  - simpl. rewrite lookup_delete_ne by done. apply lookup_insert_eq.
Qed.

Lemma reconnect_replaces_witness :
  let d := mkJoin "MEET0001" "u1" "Uma" in
  let res := on_join_meeting demo_env "s9" d (run demo_events init) in
  ∃ m' p',
    meetings res.1 !! "MEET0001"%string = Some m' ∧
    getParticipant m' "u1" = Some p' ∧ p_socketId p' = Some "s9"%string ∧
    userIds m' = userIds demo_meeting ∧
    length (participants m') = length (participants demo_meeting) ∧
    res.2 !! 0 = Some (Emit (SocketTo "MEET0001" "s9") "user-disconnected"
                         (PPeerGone "u1" "Uma" "s1")) ∧
    activeSockets res.1 !! "s1"%string = None ∧
    activeSockets res.1 !! "s9"%string = Some (mkSession "u1" "Uma" "MEET0001").
Proof.
  intros d res.
  apply (reconnect_replaces demo_env "s9" d (run demo_events init) demo_meeting
           (mkParticipant "u1" "Uma" (Some "s1"%string) false false false false 0) "s1");
    try done; vm_compute; reflexivity.
Defined.

End Reconnect.

(** ** Moderation, disconnect and vote broadcast *)

Section Frames.

(** C5. A mute or kick request whose requester is not the host of the
    resolved meeting produces no output and changes nothing: the handler
    returns the state as it was once the meeting was resolved, in which the
    socket registrations, the room memberships and every resident meeting
    are what they were; when the meeting was resident, the state is the
    state before the request. *)
Theorem moderation_requires_host (env : Env) (sid : string) (d : ModerationData)
    (st st0 : ServerState) (m : InMemoryMeeting) :
  resolve env (md_meetingId d) st = (st0, Some m) →
  host m ≠ md_hostUserId d →
  on_host_mute_participant env sid d st = (st0, []) ∧
  on_host_kick_participant env sid d st = (st0, []) ∧
  activeSockets st0 = activeSockets st ∧ rooms st0 = rooms st ∧
  (∀ k v, meetings st !! k = Some v → meetings st0 !! k = Some v) ∧
  (is_Some (meetings st !! md_meetingId d) → st0 = st).
Proof.
  intros Hr Hhost.
  destruct (resolve_some _ _ _ _ _ Hr) as (_ & ? & ? & ? & ?).
  unfold on_host_mute_participant, on_host_kick_participant. rewrite Hr.
  split_and!; try done; by rewrite decide_False by done.
Qed.

Lemma moderation_requires_host_witness :
  let d := mkModeration "MEET0001" "u1" "u2" "s2" "Vik" in
  let st := run demo_events init in
  on_host_mute_participant demo_env "s1" d st = (st, []) ∧
  on_host_kick_participant demo_env "s1" d st = (st, []).
Proof.
  intros d st.
  assert (resolve demo_env (md_meetingId d) st = (st, Some demo_meeting)) as Hr
    by (apply resolve_resident; vm_compute; reflexivity).
  destruct (moderation_requires_host demo_env "s1" d st st demo_meeting Hr)
    as (Hmute & Hkick & _); [done|].
  by split.
Defined.

(** C9. A transport disconnect of a connection registered for a user in a
    meeting that resolves: the only output is the disconnect notice to the
    rest of the room; the connection leaves [activeSockets]; every resident
    meeting, the one concerned included, is stored exactly as before, so the
    participant list still holds the user. *)
Theorem disconnect_keeps_participants (env : Env) (sid : string) (st st0 : ServerState)
    (session : Session) (m : InMemoryMeeting) :
  activeSockets st !! sid = Some session →
  resolve env (s_meetingId session) st = (st0, Some m) →
  let res := on_disconnect env sid st in
  res.2 = [Emit (SocketTo (s_meetingId session) sid) "user-disconnected"
             (PPeerGone (s_userId session) (s_username session) sid)] ∧
  meetings res.1 !! s_meetingId session = Some m ∧
  (∀ k v, meetings st !! k = Some v → meetings res.1 !! k = Some v) ∧
  (is_Some (meetings st !! s_meetingId session) → meetings res.1 = meetings st) ∧
  activeSockets res.1 = delete sid (activeSockets st) ∧
  rooms res.1 = rooms st.
Proof.
  intros Hs Hr res.
  destruct (resolve_some _ _ _ _ _ Hr) as (? & Ha & ? & ? & Hsame).
  unfold res, on_disconnect. rewrite Hs, Hr. cbn [fst snd].
  split_and!; try done.
  - intros Hres. by rewrite (Hsame Hres).
  - simpl. by rewrite Ha.
Qed.

Lemma disconnect_keeps_participants_witness :
  let st := run demo_events init in
  let res := on_disconnect demo_env "s1" st in
  res.2 = [Emit (SocketTo "MEET0001" "s1") "user-disconnected" (PPeerGone "u1" "Uma" "s1")] ∧
  meetings res.1 !! "MEET0001"%string = Some demo_meeting.
Proof.
  intros st res.
  assert (activeSockets st !! "s1"%string = Some (mkSession "u1" "Uma" "MEET0001")) as Hs
    by (vm_compute; reflexivity).
  assert (resolve demo_env "MEET0001" st = (st, Some demo_meeting)) as Hr
    by (apply resolve_resident; vm_compute; reflexivity).
  destruct (disconnect_keeps_participants demo_env "s1" st st _ demo_meeting Hs Hr)
    as (Hout & Hm & _).
  by split.
Defined.

(** C10. Every [vote-poll] request is answered by one [poll-voted]
    broadcast of the request to the room it names. When no meeting
    resolves, the state is unchanged. When a meeting resolves and no stored
    poll has the requested id, the state is the state as resolved: every
    resident meeting is as before, and the whole state is unchanged if the
    meeting was resident. *)
Theorem vote_broadcast_unconditional (env : Env) (sid : string) (d : VoteData)
    (st : ServerState) :
  let res := on_vote_poll env sid d st in
  res.2 = [Emit (IoTo (v_meetingId d)) "poll-voted" (PVote d)] ∧
  (∀ st0, resolve env (v_meetingId d) st = (st0, None) → res.1 = st) ∧
  (∀ st0 m, resolve env (v_meetingId d) st = (st0, Some m) →
     list_find (λ msg, msg_id msg = v_pollId d ∧ msg_type msg = poll) (messages m) = None →
     res.1 = st0 ∧
     (∀ k v, meetings st !! k = Some v → meetings res.1 !! k = Some v) ∧
     (is_Some (meetings st !! v_meetingId d) → res.1 = st)).
Proof.
  intros res. unfold res, on_vote_poll. split_and!.
  - by destruct (resolve _ _ _) as [st0 [m|]].
  - intros st0 Hr. rewrite Hr. by apply resolve_none in Hr as [-> _].
  - intros st0 m Hr Hfind. rewrite Hr. cbn [fst].
    destruct (resolve_some _ _ _ _ _ Hr) as (Hm & _ & _ & Hkeep & Hsame).
    assert (store (v_meetingId d)
              (set_messages m (voteOnPoll (v_pollId d) (v_userId d) (v_optionIndex d)
                                 (getChatHistory m))) st0 = st0) as ->.
    { unfold voteOnPoll, getChatHistory. rewrite Hfind, set_messages_id.
      unfold store. rewrite insert_id by done. apply set_meetings_id. }
    by split_and!.
Qed.

Lemma vote_broadcast_unconditional_witness :
  let d := mkVote "NOPE" 7 "u1" "Uma" 0 in
  let res := on_vote_poll demo_env "s1" d init in
  res.2 = [Emit (IoTo "NOPE") "poll-voted" (PVote d)] ∧ res.1 = init.
Proof.
  intros d res.
  destruct (vote_broadcast_unconditional demo_env "s1" d init) as (Hout & Hnone & _).
  split; [exact Hout|]. apply (Hnone init). reflexivity.
Defined.

End Frames.

(** ** Transcript storage *)

Section Transcripts.

Lemma push_bounded_last {A} (cap : nat) (l : list A) (x : A) :
  0 < cap → last (push_bounded cap l x) = Some x.
Proof.
  intros Hcap. unfold push_bounded. case_decide as Hc; [|apply last_snoc].
  destruct l as [|y l]; simpl in *; [lia|]. apply last_snoc.
Qed.

(** C8, as the code has it. A transcript request with non-blank text for a
    meeting that resolves appends one entry to the stored transcript,
    whatever its [isFinal]: the entry carries the trimmed text and the
    [isFinal] value of the request, [true] when the request leaves it out
    and the value as it came otherwise, [null] and [false] included; it is
    the newest entry of the log. The request is relayed to the rest of the
    room with [isFinal] as it came. The stored value only decides whether
    the entry is among those formatted for a summary: it is when the
    request left [isFinal] out or gave a truthy value. *)
Theorem transcript_stored_with_flag (env : Env) (sid : string) (d : TranscriptData)
    (st st0 : ServerState) (m : InMemoryMeeting) :
  resolve env (td_meetingId d) st = (st0, Some m) →
  td_text d ≠ ""%string → trim (td_text d) ≠ ""%string →
  let res := on_transcript env sid d st in
  let entry := mkTranscript (td_userId d) (td_username d) (trim (td_text d))
                 (or_default (js_bool true) (td_isFinal d)) (env_now env) in
  ∃ m', meetings res.1 !! td_meetingId d = Some m' ∧
        transcript m' = push_bounded 1000 (transcript m) entry ∧
        last (transcript m') = Some entry ∧
        (td_isFinal d = js_undefined → t_isFinal entry = js_bool true) ∧
        (td_isFinal d ≠ js_undefined → t_isFinal entry = td_isFinal d) ∧
        (entry ∈ finalEntries (transcript m') ↔
           td_isFinal d = js_undefined ∨ is_truthy (td_isFinal d) = true) ∧
        res.2 = [Emit (SocketTo (td_meetingId d) sid) "transcript-update"
                   (PTranscript (td_userId d) (td_username d) (td_text d)
                      (td_isFinal d) (env_now env))].
Proof.
  intros Hr Ht Htrim res entry.
  exists (addTranscript m (td_userId d) (td_username d) (td_text d) (td_isFinal d)
            (env_now env)).
  unfold res, on_transcript. rewrite Hr. rewrite decide_True by done.
  cbn [fst snd store set_meetings meetings].
  assert (transcript (addTranscript m (td_userId d) (td_username d) (td_text d)
                        (td_isFinal d) (env_now env))
          = push_bounded 1000 (transcript m) entry) as Htr.
  { unfold addTranscript. by rewrite decide_False by (by intros [?|?]). }
  assert (last (push_bounded 1000 (transcript m) entry) = Some entry) as Hlast
    by (apply push_bounded_last; lia).
  split_and!; try done.
  - apply lookup_insert_eq.
  - by rewrite Htr.
  - unfold entry. simpl. by intros ->.
  - unfold entry. simpl. by destruct (td_isFinal d).
  - rewrite Htr. unfold finalEntries. rewrite list_elem_of_filter. simpl. split.
    + intros [Hfin _]. destruct (td_isFinal d); simpl in *; auto.
    + intros Hfin. split.
      * destruct Hfin as [->|Hfin]; [done|]. by destruct (td_isFinal d).
      * apply last_Some in Hlast as [l' ->]. apply elem_of_app. right.
        apply list_elem_of_here.
Qed.

Lemma transcript_stored_with_flag_witness :
  let st := run [(demo_env, HttpCreate "h" "Hana" "Standup")] init in
  let d := mkTranscriptData "MEET0001" "u1" "Uma" " hel" js_null in
  let res := on_transcript demo_env "s1" d st in
  let entry := mkTranscript "u1" "Uma" "hel" js_null 0 in
  ∃ m', meetings res.1 !! "MEET0001"%string = Some m' ∧
        transcript m' = push_bounded 1000 [] entry ∧
        last (transcript m') = Some entry ∧
        (js_null = js_undefined → t_isFinal entry = js_bool true) ∧
        (js_null ≠ js_undefined → t_isFinal entry = js_null) ∧
        (entry ∈ finalEntries (transcript m') ↔
           js_null = js_undefined ∨ is_truthy js_null = true) ∧
        res.2 = [Emit (SocketTo "MEET0001" "s1") "transcript-update"
                   (PTranscript "u1" "Uma" " hel" js_null 0)].
Proof.
  intros st d res entry.
  apply (transcript_stored_with_flag demo_env "s1" d st st
           (new_meeting "MEET0001" "h" "Hana" "Standup" 0)).
  - apply resolve_resident. vm_compute. reflexivity.
  - done.
  - vm_compute. discriminate.
Defined.

(** C8 as stated fails: an interim entry sent to a meeting is found in the
    stored transcript afterwards. *)
Lemma interim_transcript_counterexample :
  ¬ (∀ m t, meetings (run interim_events init) !! "MEET0001"%string = Some m →
            t ∈ transcript m → is_truthy (t_isFinal t) = true).
Proof.
  intros H.
  specialize (H (mkMeeting "MEET0001" "h" "Hana" "Standup" [] []
                   [mkTranscript "u1" "Uma" "hel" (js_bool false) 0] [] 0 true None)
                (mkTranscript "u1" "Uma" "hel" (js_bool false) 0)).
  discriminate H.
  - vm_compute. reflexivity.
  - apply list_elem_of_here.
Qed.

End Transcripts.

(** ** Poll votes *)

Section Polls.

Implicit Types (uid : string) (oi : Z) (opts : list PollOption).

Lemma others_votes_idem uid (vs : list string) :
  filter (λ v, v ≠ uid) (filter (λ v, v ≠ uid) vs) = filter (λ v, v ≠ uid) vs.
Proof.
  induction vs as [|v vs IH]; [done|]. rewrite filter_cons.
  case_decide; [|done]. rewrite filter_cons, decide_True by done. by rewrite IH.
Qed.

Lemma others_votes_snoc uid (vs : list string) :
  filter (λ v, v ≠ uid) (vs ++ [uid]) = filter (λ v, v ≠ uid) vs.
Proof.
  rewrite filter_app, filter_cons, decide_False, filter_nil, app_nil_r; [done|].
  intros H. by apply H.
Qed.

Lemma vote_option_member uid oi (i : nat) (opt : PollOption) :
  uid ∈ opt_votes (vote_option uid oi i opt) ↔ Z.of_nat i = oi.
Proof.
  unfold vote_option. cbn [opt_votes]. case_decide as Hi.
  - split; [done|]. intros _. apply elem_of_app. right. apply list_elem_of_here.
  - split; [|done]. intros [Hne _]%list_elem_of_filter. done.
Qed.

Lemma vote_option_count uid oi (i : nat) (opt : PollOption) :
  opt_count (vote_option uid oi i opt) = length (opt_votes (vote_option uid oi i opt)).
Proof. done. Qed.

(** A vote after a vote by the same user: only the second one counts. *)
Lemma vote_option_again uid oi oj (i : nat) (opt : PollOption) :
  vote_option uid oj i (vote_option uid oi i opt) = vote_option uid oj i opt.
Proof.
  unfold vote_option. cbn [opt_votes opt_text]. f_equal.
  - destruct (decide (Z.of_nat i = oi)).
    + by rewrite others_votes_snoc, others_votes_idem.
    + by rewrite others_votes_idem.
  - destruct (decide (Z.of_nat i = oi)).
    + by rewrite others_votes_snoc, others_votes_idem.
    + by rewrite others_votes_idem.
Qed.

Lemma vote_options_again uid oi oj opts :
  vote_options uid oj (vote_options uid oi opts) = vote_options uid oj opts.
Proof.
  unfold vote_options. apply list_eq. intros i. rewrite !list_lookup_imap.
  destruct (opts !! i) as [opt|]; [|done]. simpl. f_equal. apply vote_option_again.
Qed.

(** The number of options that hold the voter after a vote. *)
Lemma vote_options_holders uid oi opts (n : nat) :
  length (filter (λ opt, uid ∈ opt_votes opt)
            (imap (λ i, vote_option uid oi (n + i)) opts)) =
  if decide (Z.of_nat n ≤ oi < Z.of_nat (n + length opts))%Z then 1 else 0.
Proof.
  revert n. induction opts as [|opt opts IH]; intros n.
  - simpl. rewrite decide_False; [done|]. lia.
  - rewrite imap_cons, filter_cons.
    rewrite (imap_ext _ (λ i, vote_option uid oi (S n + i))); last first.
    { intros i x _. simpl. f_equal. lia. }
    specialize (IH (S n)). cbn [length].
    destruct (decide (Z.of_nat (n + 0) = oi)) as [Heq|Hne].
    + rewrite decide_True by (by apply vote_option_member).
      cbn [length]. rewrite IH. rewrite decide_False by lia.
      rewrite decide_True by lia. done.
    + rewrite decide_False by (by rewrite vote_option_member).
      rewrite IH. repeat case_decide; try done; lia.
Qed.

Lemma voteOnPoll_found pollId uid oi (history : list Message) (k : nat) (p : Message) :
  list_find (is_poll pollId) history = Some (k, p) →
  voteOnPoll pollId uid oi history =
    <[k := set_options p (vote_options uid oi (msg_options p))]> history ∧
  list_find (is_poll pollId) (voteOnPoll pollId uid oi history) =
    Some (k, set_options p (vote_options uid oi (msg_options p))).
Proof.
  intros Hfind. unfold voteOnPoll. fold (is_poll pollId). rewrite Hfind.
  split; [done|]. apply list_find_Some in Hfind as (Hk & Hp & Hleast).
  apply list_find_Some. split_and!.
  - apply list_lookup_insert_eq. by eapply lookup_lt_Some.
  - done.
  - intros j y Hj Hlt. rewrite list_lookup_insert_ne in Hj by lia. by eapply Hleast.
Qed.

Lemma voteOnPoll_again pollId uid oi oj (history : list Message) :
  voteOnPoll pollId uid oj (voteOnPoll pollId uid oi history) =
  voteOnPoll pollId uid oj history.
Proof.
  destruct (list_find (is_poll pollId) history) as [[k p]|] eqn:Hfind.
  - destruct (voteOnPoll_found pollId uid oi history k p Hfind) as [Hv Hfind'].
    destruct (voteOnPoll_found pollId uid oj _ k _ Hfind') as [-> _].
    destruct (voteOnPoll_found pollId uid oj history k p Hfind) as [-> _].
    rewrite Hv, list_insert_insert_eq. unfold set_options. cbn [msg_options].
    by rewrite vote_options_again.
  - unfold voteOnPoll. fold (is_poll pollId). by rewrite !Hfind.
Qed.

(** A sequence of votes by one user on one poll is worth its last vote. *)
Lemma votes_last pollId uid (ois : list Z) (last : Z) (history : list Message) :
  foldl (λ h oi, voteOnPoll pollId uid oi h) history (ois ++ [last]) =
  voteOnPoll pollId uid last history.
Proof.
  revert history. induction ois as [|oi ois IH]; intros history; [done|].
  simpl. rewrite IH. apply voteOnPoll_again.
Qed.

(** What [vote-poll] stores in a resident meeting. *)
Lemma on_vote_poll_resident env sid (d : VoteData) st m :
  meetings st !! v_meetingId d = Some m →
  meetings (on_vote_poll env sid d st).1 !! v_meetingId d =
    Some (set_messages m
            (voteOnPoll (v_pollId d) (v_userId d) (v_optionIndex d) (messages m))).
Proof.
  intros Hm. unfold on_vote_poll. rewrite (resolve_resident _ _ _ _ Hm).
  cbn [fst store set_meetings meetings]. apply lookup_insert_eq.
Qed.

(** C7, as the code has it. After any non-empty sequence of votes by one
    user on a stored poll, the chat history is what the last vote alone
    would have made of it, and voting the same option again changes
    nothing. In the poll, an option holds the user exactly if its index is
    the index of the last vote, and every count is the length of the voter
    list. So exactly one option holds the user when the last index is an
    index of the poll, and none does when it is not. *)
Theorem poll_last_vote_wins (history : list Message) (pollId : Z) (uid : string)
    (ois : list Z) (last : Z) (k : nat) (p : Message) :
  list_find (λ msg, msg_id msg = pollId ∧ msg_type msg = poll) history = Some (k, p) →
  let h' := foldl (λ h oi, voteOnPoll pollId uid oi h) history (ois ++ [last]) in
  h' = voteOnPoll pollId uid last history ∧
  voteOnPoll pollId uid last h' = h' ∧
  ∃ p', list_find (λ msg, msg_id msg = pollId ∧ msg_type msg = poll) h' = Some (k, p') ∧
        length (msg_options p') = length (msg_options p) ∧
        (∀ i opt, msg_options p' !! i = Some opt →
           (uid ∈ opt_votes opt ↔ Z.of_nat i = last) ∧
           opt_count opt = length (opt_votes opt)) ∧
        length (filter (λ opt, uid ∈ opt_votes opt) (msg_options p')) =
          (if decide (0 ≤ last < Z.of_nat (length (msg_options p)))%Z then 1 else 0).
Proof.
  intros Hfind h'. assert (h' = voteOnPoll pollId uid last history) as ->
    by apply votes_last.
  split; [done|]. split; [apply voteOnPoll_again|].
  destruct (voteOnPoll_found pollId uid last history k p Hfind) as [_ Hfind'].
  eexists. split; [exact Hfind'|]. unfold set_options. cbn [msg_options].
  split_and!.
  - apply length_imap.
  - intros i opt Hi. unfold vote_options in Hi. rewrite list_lookup_imap in Hi.
    destruct (msg_options p !! i) as [o|]; [|done]. simpl in Hi.
    injection Hi as <-. split; [apply vote_option_member|done].
  - apply (vote_options_holders uid last (msg_options p) 0).
Qed.

Lemma poll_last_vote_wins_witness :
  let h' := foldl (λ h oi, voteOnPoll 7 "u1" oi h) [demo_poll] ([0; 1; 1] ++ [0])%Z in
  h' = voteOnPoll 7 "u1" 0 [demo_poll] ∧
  voteOnPoll 7 "u1" 0 h' = h' ∧
  ∃ p', list_find (λ msg, msg_id msg = 7%Z ∧ msg_type msg = poll) h' = Some (0, p') ∧
        length (msg_options p') = 2 ∧
        (∀ i opt, msg_options p' !! i = Some opt →
           ("u1"%string ∈ opt_votes opt ↔ Z.of_nat i = 0%Z) ∧
           opt_count opt = length (opt_votes opt)) ∧
        length (filter (λ opt, "u1"%string ∈ opt_votes opt) (msg_options p')) = 1.
Proof.
  apply (poll_last_vote_wins [demo_poll] 7 "u1" [0; 1; 1]%Z 0 0 demo_poll).
  vm_compute. reflexivity.
Defined.

(** C7 as stated fails: after a vote whose option index is not an index of
    the poll, no option holds the voter. *)
Lemma stray_vote_counterexample :
  ¬ (∀ m p, meetings (run stray_vote_events init) !! "MEET0001"%string = Some m →
            messages m !! 0 = Some p →
            length (filter (λ opt, "u1"%string ∈ opt_votes opt) (msg_options p)) = 1).
Proof.
  intros H.
  specialize (H (mkMeeting "MEET0001" "h" "Hana" "Standup" []
                   [mkMessage 7 poll "h" "Hana" "Lunch?"
                      [mkOption (TextOf "yes") [] 0; mkOption (TextOf "no") [] 0] 0]
                   [] [] 0 true None)
                (mkMessage 7 poll "h" "Hana" "Lunch?"
                   [mkOption (TextOf "yes") [] 0; mkOption (TextOf "no") [] 0] 0)).
  discriminate H.
  - vm_compute. reflexivity.
  - reflexivity.
Qed.

End Polls.

(** ** More on the session store *)

Section StoreOperations.

Lemma set_participants_id (m : InMemoryMeeting) : set_participants m (participants m) = m.
Proof. by destruct m. Qed.

Lemma filter_others_absent (uid : string) (ps : list Participant) :
  uid ∉ p_userId <$> ps → filter (λ p, p_userId p ≠ uid) ps = ps.
Proof.
  induction ps as [|p ps IH]; [done|]. rewrite fmap_cons, not_elem_of_cons.
  intros [Hne Hnin]. rewrite filter_cons, decide_True by done. by rewrite IH.
Qed.

Lemma assign_twice (p : Participant) (u : Updates) : assign (assign p u) u = assign p u.
Proof.
  destruct p, u as [[s|] [a|] [v|] [h|] [sc|]]; reflexivity.
Qed.

Lemma assign_first_twice (uid : string) (u : Updates) (ps : list Participant) :
  assign_first uid u (assign_first uid u ps) = assign_first uid u ps.
Proof.
  induction ps as [|p ps IH]; [done|]. cbn [assign_first].
  destruct (decide (p_userId p = uid)) as [Heq|Hne]; cbn [assign_first].
  - rewrite decide_True by done. by rewrite assign_twice.
  - rewrite decide_False by done. by rewrite IH.
Qed.

Lemma log_change_settled (b : option bool) (old : bool) on off uid uname now m :
  log_change b (default old b) on off uid uname now m = m.
Proof.
  unfold log_change. destruct b as [b|]; [|done]. simpl. by rewrite decide_True.
Qed.

Lemma updateParticipant_twice_facts (m : InMemoryMeeting) (uid : string) (u : Updates)
    (now now' : Z) :
  updateParticipant (updateParticipant m uid u now) uid u now' =
  updateParticipant m uid u now.
Proof.
  destruct (getParticipant m uid) as [p|] eqn:Hp.
  - pose proof (getParticipant_updated m uid u now p Hp) as Hp'.
    set (m1 := updateParticipant m uid u now) in *.
    unfold updateParticipant at 1. rewrite Hp'.
    change (p_isHandRaised (assign p u)) with (default (p_isHandRaised p) (u_isHandRaised u)).
    change (p_isScreenSharing (assign p u))
      with (default (p_isScreenSharing p) (u_isScreenSharing u)).
    change (p_isAudioMuted (assign p u)) with (default (p_isAudioMuted p) (u_isAudioMuted u)).
    change (p_isVideoOff (assign p u)) with (default (p_isVideoOff p) (u_isVideoOff u)).
    rewrite !log_change_settled.
    assert (participants m1 = assign_first uid u (participants m)) as Hps.
    { unfold m1, updateParticipant. rewrite Hp. unfold set_participants.
      cbn [participants]. by rewrite !log_change_participants. }
    rewrite Hps, assign_first_twice, <- Hps. apply set_participants_id.
  - unfold updateParticipant. by rewrite !Hp.
Qed.

(** X1. Applying the same update to the same participant a second time
    changes nothing: no flag moves, so no further activity is logged. *)
Theorem updateParticipant_twice (m : InMemoryMeeting) (uid : string) (u : Updates)
    (now now' : Z) :
  updateParticipant (updateParticipant m uid u now) uid u now' =
  updateParticipant m uid u now.
Proof. apply updateParticipant_twice_facts. Qed.

Lemma assign_first_lookup_ne (uid : string) (u : Updates) (ps : list Participant)
    (i : nat) (q : Participant) :
  ps !! i = Some q → p_userId q ≠ uid → assign_first uid u ps !! i = Some q.
Proof.
  revert i. induction ps as [|p ps IH]; intros i Hi Hq; [done|]. cbn [assign_first].
  destruct i as [|i]; simpl in Hi.
  - injection Hi as ->. by rewrite decide_False.
  - case_decide; [done|]. simpl. by apply IH.
Qed.

Lemma log_change_frame new old on off uid uname now m :
  messages (log_change new old on off uid uname now m) = messages m ∧
  transcript (log_change new old on off uid uname now m) = transcript m ∧
  isActive (log_change new old on off uid uname now m) = isActive m ∧
  host (log_change new old on off uid uname now m) = host m.
Proof.
  unfold log_change. destruct new as [b|]; [|done]. by case_decide.
Qed.

Lemma updateParticipant_frame_fields m uid u now :
  messages (updateParticipant m uid u now) = messages m ∧
  transcript (updateParticipant m uid u now) = transcript m ∧
  isActive (updateParticipant m uid u now) = isActive m ∧
  host (updateParticipant m uid u now) = host m.
Proof.
  unfold updateParticipant. destruct (getParticipant m uid) as [p|]; [|done].
  unfold set_participants. cbn [messages transcript isActive host].
  repeat match goal with
  | |- context [log_change ?a ?b ?c ?d ?e ?f ?g ?h] =>
      let H := fresh in
      pose proof (log_change_frame a b c d e f g h) as H;
      destruct H as (-> & -> & -> & ->)
  end.
  done.
Qed.

Lemma updateParticipant_frame_facts (m : InMemoryMeeting) (uid : string) (u : Updates)
    (now : Z) :
  let m' := updateParticipant m uid u now in
  (∀ i q, participants m !! i = Some q → p_userId q ≠ uid →
          participants m' !! i = Some q) ∧
  length (participants m') = length (participants m) ∧
  messages m' = messages m ∧ transcript m' = transcript m ∧
  (uid ∉ userIds m → m' = m).
Proof.
  intros m'. split_and!.
  - intros i q Hi Hq. unfold m', updateParticipant.
    destruct (getParticipant m uid) as [p|]; [|done].
    unfold set_participants. cbn [participants]. rewrite !log_change_participants.
    by apply assign_first_lookup_ne.
  - rewrite <- !(length_fmap p_userId). fold (userIds m) (userIds m').
    unfold m'. by rewrite updateParticipant_userIds.
  - apply updateParticipant_frame_fields.
  - apply updateParticipant_frame_fields.
  - intros Habs. unfold m', updateParticipant.
    destruct (getParticipant m uid) as [p|] eqn:Hp; [|done].
    exfalso. apply Habs. apply getParticipant_Some in Hp as [<- Hin].
    unfold userIds. by apply list_elem_of_fmap_2.
Qed.

(** X2. An update touches one entry only: every other participant stays at
    its place in the list, the list keeps its length, chat history and
    transcript are untouched; and an update for a user who is not listed
    leaves the meeting as it is. *)
Theorem updateParticipant_frame (m : InMemoryMeeting) (uid : string) (u : Updates)
    (now : Z) :
  let m' := updateParticipant m uid u now in
  (∀ i q, participants m !! i = Some q → p_userId q ≠ uid →
          participants m' !! i = Some q) ∧
  length (participants m') = length (participants m) ∧
  messages m' = messages m ∧ transcript m' = transcript m ∧
  (uid ∉ userIds m → m' = m).
Proof. apply updateParticipant_frame_facts. Qed.

Lemma updateParticipant_frame_witness :
  let m' := updateParticipant demo_meeting "u1"
              (mkUpdates None (Some true) None None None) 5 in
  participants m' !! 1 = Some (mkParticipant "u2" "Vik" (Some "s2"%string)
                                 false false false false 0).
Proof.
  intros m'.
  apply (updateParticipant_frame demo_meeting "u1"
           (mkUpdates None (Some true) None None None) 5); [reflexivity|done].
Defined.

Lemma removeParticipant_effect_facts (m : InMemoryMeeting) (uid : string) (now : Z) :
  let m' := removeParticipant m uid now in
  (uid ∉ userIds m') ∧
  participants m' = filter (λ p, p_userId p ≠ uid) (participants m) ∧
  (∀ p, getParticipant m uid = Some p →
        activities m' = push_bounded 500 (activities m)
                          (mkActivity leave uid (p_username p) now)) ∧
  (uid ∉ userIds m → m' = m).
Proof.
  intros m'.
  assert (participants m' = filter (λ p, p_userId p ≠ uid) (participants m)) as Hps.
  { unfold m', removeParticipant. by destruct (getParticipant m uid). }
  split_and!.
  - unfold userIds. rewrite Hps, userIds_filter_ne.
    intros [Hne _]%list_elem_of_filter. done.
  - done.
  - intros p Hp. unfold m', removeParticipant. by rewrite Hp.
  - intros Habs. unfold m', removeParticipant.
    destruct (getParticipant m uid) as [p|] eqn:Hp.
    + exfalso. apply Habs. apply getParticipant_Some in Hp as [<- Hin].
      unfold userIds. by apply list_elem_of_fmap_2.
    + rewrite filter_others_absent by done. apply set_participants_id.
Qed.

(** X3. Removing a user leaves no entry for that user and keeps the others in
    their order. If the user was listed, one [leave] activity carrying the
    listed name is pushed; if not, the meeting is left as it is. *)
Theorem removeParticipant_effect (m : InMemoryMeeting) (uid : string) (now : Z) :
  let m' := removeParticipant m uid now in
  (uid ∉ userIds m') ∧
  participants m' = filter (λ p, p_userId p ≠ uid) (participants m) ∧
  (∀ p, getParticipant m uid = Some p →
        activities m' = push_bounded 500 (activities m)
                          (mkActivity leave uid (p_username p) now)) ∧
  (uid ∉ userIds m → m' = m).
Proof. apply removeParticipant_effect_facts. Qed.

Lemma removeParticipant_effect_witness :
  activities (removeParticipant demo_meeting "u2" 9) =
  push_bounded 500 (activities demo_meeting) (mkActivity leave "u2" "Vik" 9).
Proof.
  destruct (removeParticipant_effect demo_meeting "u2" 9) as (_ & _ & Hact & _).
  apply (Hact (mkParticipant "u2" "Vik" (Some "s2"%string) false false false false 0)).
  reflexivity.
Defined.

Lemma find_fresh_last (uid : string) (ps : list Participant) (fresh : Participant) :
  p_userId fresh = uid →
  list_find (λ p, p_userId p = uid) (filter (λ p, p_userId p ≠ uid) ps ++ [fresh])
  = Some (length (filter (λ p, p_userId p ≠ uid) ps), fresh).
Proof.
  intros Hf. apply list_find_Some. split_and!.
  - rewrite lookup_app_r by lia. by rewrite Nat.sub_diag.
  - done.
  - intros j y Hj Hlt. rewrite lookup_app_l in Hj by lia.
    apply list_elem_of_lookup_2, list_elem_of_filter in Hj as [Hne _]. done.
Qed.

Lemma addParticipant_fresh_facts (m : InMemoryMeeting) (uid uname : string)
    (sock : option string) (now : Z) :
  let m' := (addParticipant m uid uname sock now).1 in
  let fresh := mkParticipant uid uname sock false false false false now in
  (addParticipant m uid uname sock now).2 = fresh ∧
  getParticipant m' uid = Some fresh ∧
  participants m' = filter (λ p, p_userId p ≠ uid) (participants m) ++ [fresh] ∧
  last (activities m') = Some (mkActivity join uid uname now).
Proof.
  intros m' fresh. split_and!; try done.
  - unfold m', getParticipant, addParticipant.
    cbn [fst participants addActivity set_activities set_participants].
    by rewrite find_fresh_last.
  - unfold m', addParticipant. cbn [fst activities addActivity set_activities].
    apply push_bounded_last. lia.
Qed.

(** X4. [addParticipant] replaces whatever was listed for the user by a fresh
    entry at the end of the list: the given name and connection id, all four
    flags cleared. It is the entry [getParticipant] returns afterwards. The
    entries of the other users keep their order, and the newest activity is
    the [join] of that user. *)
Theorem addParticipant_fresh (m : InMemoryMeeting) (uid uname : string)
    (sock : option string) (now : Z) :
  let m' := (addParticipant m uid uname sock now).1 in
  let fresh := mkParticipant uid uname sock false false false false now in
  (addParticipant m uid uname sock now).2 = fresh ∧
  getParticipant m' uid = Some fresh ∧
  participants m' = filter (λ p, p_userId p ≠ uid) (participants m) ++ [fresh] ∧
  last (activities m') = Some (mkActivity join uid uname now).
Proof. apply addParticipant_fresh_facts. Qed.

Lemma add_then_remove_facts (m : InMemoryMeeting) (uid uname : string)
    (sock : option string) (now now' : Z) :
  uid ∉ userIds m →
  participants (removeParticipant (addParticipant m uid uname sock now).1 uid now')
  = participants m.
Proof.
  intros Habs.
  destruct (removeParticipant_effect_facts (addParticipant m uid uname sock now).1 uid now')
    as (_ & -> & _).
  destruct (addParticipant_fresh_facts m uid uname sock now) as (_ & _ & -> & _).
  rewrite filter_app, filter_cons, decide_False, filter_nil, app_nil_r
    by (intros H; by apply H).
  by rewrite !(filter_others_absent uid (participants m)) by done.
Qed.

(** X5. Adding a user who was not listed and removing that user again gives
    back the participant list as it was. *)
Theorem add_then_remove (m : InMemoryMeeting) (uid uname : string)
    (sock : option string) (now now' : Z) :
  uid ∉ userIds m →
  participants (removeParticipant (addParticipant m uid uname sock now).1 uid now')
  = participants m.
Proof. apply add_then_remove_facts. Qed.

Lemma add_then_remove_witness :
  participants (removeParticipant (addParticipant demo_meeting "u7" "Zoe" None 3).1 "u7" 4)
  = participants demo_meeting.
Proof.
  apply add_then_remove. vm_compute. intros H.
  repeat (apply elem_of_cons in H as [H|H]; [discriminate H|]).
  by apply elem_of_nil in H.
Defined.

End StoreOperations.

(** ** The meeting store and the shape of a step *)

Section StepShape.

(** Once [getMeeting] has returned a meeting, later calls return the same
    meeting from memory and leave the store alone, whatever the durable store
    holds by then. *)
Lemma getMeeting_served_from_memory (db db' : string → option DbMeeting) (now now' : Z)
    (mid : string) (ms ms1 : gmap string InMemoryMeeting) (m : InMemoryMeeting) :
  getMeeting db now mid ms = (ms1, Some m) →
  getMeeting db' now' mid ms1 = (ms1, Some m).
Proof.
  unfold getMeeting. destruct (ms !! mid) as [m0|] eqn:Hm.
  - intros [= <- <-]. by rewrite Hm.
  - destruct (db mid) as [d|]; [|done].
    destruct (db_isActive d || bool_decide (db_status d = "active"%string)); [|done].
    intros [= <- <-]. by rewrite lookup_insert_eq.
Qed.

Lemma getMeeting_served_from_memory_witness :
  getMeeting (λ _, None) 8 "M" (createMeeting "M" "h" "Hana" "T" 1 ∅)
  = (createMeeting "M" "h" "Hana" "T" 1 ∅, Some (new_meeting "M" "h" "Hana" "T" 1)).
Proof.
  apply (getMeeting_served_from_memory
           (λ _, Some (mkDbMeeting "h" "Hana" "T" true "active")) (λ _, None) 1 8 "M"
           (createMeeting "M" "h" "Hana" "T" 1 ∅)).
  vm_compute. reflexivity.
Defined.

(** X6. A meeting that is not resident is answered from the durable record
    alone: [getMeeting] returns nothing unless the record exists and is
    active (flag set or status "active"), and what it returns then is an
    active shell with the record's host and title, no participants and empty
    logs, which is now resident. Nothing of an evicted meeting survives. *)
Theorem getMeeting_rehydrates_empty (db : string → option DbMeeting) (now : Z)
    (mid : string) (ms ms' : gmap string InMemoryMeeting) (om : option InMemoryMeeting) :
  ms !! mid = None →
  getMeeting db now mid ms = (ms', om) →
  (∀ m, om = Some m →
     ∃ d, db mid = Some d ∧
          (db_isActive d = true ∨ db_status d = "active"%string) ∧
          host m = db_host_userId d ∧ title m = db_title d ∧ meetingId m = mid ∧
          participants m = [] ∧ messages m = [] ∧ transcript m = [] ∧
          activities m = [] ∧ isActive m = true ∧
          ms' = <[mid := m]> ms) ∧
  (om = None →
     ms' = ms ∧
     ∀ d, db mid = Some d → db_isActive d = false ∧ db_status d ≠ "active"%string).
Proof.
  intros Hm. unfold getMeeting. rewrite Hm. destruct (db mid) as [d|].
  - destruct (db_isActive d) eqn:Ha; simpl.
    + intros [= <- <-]. split; [|done]. intros m [= <-].
      exists d. split_and!; try done. by left.
    + case_bool_decide as Hs; intros [= <- <-].
      * split; [|done]. intros m [= <-]. exists d. split_and!; try done. by right.
      * split; [done|]. intros _. split; [done|]. by intros d' [= <-].
  - intros [= <- <-]. split; [done|]. by intros _.
Qed.

Lemma getMeeting_rehydrates_empty_witness :
  let db := λ _ : string, Some (mkDbMeeting "h" "Hana" "T" false "active") in
  let ms := removeMeeting "M" (createMeeting "M" "x" "X" "Old" 1 ∅) in
  let m := new_meeting "M" "h" "Hana" "T" 4 in
  ∃ d, db "M"%string = Some d ∧
       (db_isActive d = true ∨ db_status d = "active"%string) ∧
       host m = db_host_userId d ∧ title m = db_title d ∧ meetingId m = "M"%string ∧
       participants m = [] ∧ messages m = [] ∧ transcript m = [] ∧
       activities m = [] ∧ isActive m = true ∧
       <["M"%string := m]> ms = <["M"%string := m]> ms.
Proof.
  intros db ms m.
  destruct (getMeeting_rehydrates_empty db 4 "M" ms (<["M"%string := m]> ms) (Some m))
    as [Hsome _].
  - apply lookup_delete_eq.
  - unfold getMeeting, ms, removeMeeting. rewrite lookup_delete_eq. reflexivity.
  - apply (Hsome m eq_refl).
Defined.

Lemma resolve_origin env mid st st0 m :
  resolve env mid st = (st0, Some m) →
  resolved_from st env mid m ∧
  ∀ m1, <[mid := m1]> (meetings st0) = <[mid := m1]> (meetings st).
Proof.
  unfold resolve, getMeeting, resolved_from.
  destruct (meetings st !! mid) as [m0|] eqn:Hm.
  - intros [= <- <-]. split; [by left|done].
  - destruct (env_db env mid) as [d|]; [|done].
    destruct (db_isActive d || bool_decide (db_status d = "active"%string)); [|done].
    intros [= <- <-]. split.
    + right. split; [done|]. by exists d.
    + intros m1. simpl. by rewrite insert_insert_eq.
Qed.

Lemma resolve_meetings env mid st st0 m :
  resolve env mid st = (st0, Some m) → meetings st0 = <[mid := m]> (meetings st).
Proof.
  unfold resolve, getMeeting.
  destruct (meetings st !! mid) as [m0|] eqn:Hm.
  - intros [= <- <-]. simpl. by rewrite insert_id.
  - destruct (env_db env mid) as [d|]; [|done].
    destruct (db_isActive d || bool_decide (db_status d = "active"%string)); [|done].
    by intros [= <- <-].
Qed.

Ltac shape_resolve mid :=
  match goal with
  | |- context [resolve ?env mid ?st] =>
      let st0 := fresh "st0" in let m := fresh "m" in let Hr := fresh "Hr" in
      destruct (resolve env mid st) as [st0 [m|]] eqn:Hr;
      [ pose proof (resolve_origin _ _ _ _ _ Hr) as [?Ho ?Hins];
        pose proof (resolve_meetings _ _ _ _ _ Hr) as ?Hms
      | apply resolve_none in Hr as [-> _] ]
  end.

Ltac shape_changed mid m Ho Hins Hms :=
  right; right; exists mid, m; eexists; split; [exact Ho|]; split; cycle 1;
  [ cbn [fst snd meetings store set_meetings set_rooms set_activeSockets];
    first [ apply Hins | exact Hms ]
  | econstructor ].

(** Every event leaves the store as it is, or puts one meeting under one key:
    a new meeting for a create request, else the meeting the event resolved,
    after at most one operation of the store. *)
Lemma step_shape env ev st :
  (∃ h hu t t', ev = HttpCreate h hu t ∧
     meetings (step env ev st).1 =
       <[env_uuid env := new_meeting (env_uuid env) h hu t' (env_now env)]> (meetings st)) ∨
  meetings (step env ev st).1 = meetings st ∨
  ∃ mid m m1, resolved_from st env mid m ∧ Change mid ev m m1 ∧
              meetings (step env ev st).1 = <[mid := m1]> (meetings st).
Proof.
  destruct ev; cbn [step];
    unfold on_join_meeting, on_leave_meeting, on_disconnect, on_signal,
      on_chat_message, on_file_share, on_create_poll, on_vote_poll,
      on_get_chat_history, on_transcript, on_toggle_audio, on_toggle_video,
      on_raise_hand, on_screen_share, on_toggle, on_host_mute_participant,
      on_host_kick_participant, http_createMeeting, http_getMeeting,
      http_joinMeeting, http_leaveMeeting, http_endMeeting.
  - (* join-meeting *)
    shape_resolve (j_meetingId d); [|by right; left].
    destruct (isActive m); [|shape_changed (j_meetingId d) m Ho Hins Hms].
    destruct (getParticipant m (j_userId d)) as [ex|].
    + destruct (p_socketId ex) as [old|];
        [destruct (truthy (Some old) && negb (bool_decide (old = sid)))|];
        shape_changed (j_meetingId d) m Ho Hins Hms.
    + shape_changed (j_meetingId d) m Ho Hins Hms.
  - shape_resolve (l_meetingId d); [|by right; left].
    shape_changed (l_meetingId d) m Ho Hins Hms.
  - destruct (activeSockets st !! sid) as [s|]; [|by right; left].
    shape_resolve (s_meetingId s); [|by right; left].
    shape_changed (s_meetingId s) m Ho Hins Hms.
  - by right; left.
  - by right; left.
  - by right; left.
  - shape_resolve (c_meetingId d); [|by right; left].
    shape_changed (c_meetingId d) m Ho Hins Hms.
  - shape_resolve (c_meetingId d); [|by right; left].
    shape_changed (c_meetingId d) m Ho Hins Hms.
  - shape_resolve (pl_meetingId d); [|by right; left].
    shape_changed (pl_meetingId d) m Ho Hins Hms.
  - shape_resolve (v_meetingId d); [|by right; left].
    shape_changed (v_meetingId d) m Ho Hins Hms.
  - shape_resolve mid; [|by right; left].
    shape_changed mid m Ho Hins Hms.
  - shape_resolve (td_meetingId d); [|by right; left].
    case_decide; shape_changed (td_meetingId d) m Ho Hins Hms.
  - shape_resolve (tg_meetingId d); [|by right; left].
    shape_changed (tg_meetingId d) m Ho Hins Hms.
  - shape_resolve (tg_meetingId d); [|by right; left].
    shape_changed (tg_meetingId d) m Ho Hins Hms.
  - shape_resolve (tg_meetingId d); [|by right; left].
    shape_changed (tg_meetingId d) m Ho Hins Hms.
  - shape_resolve (tg_meetingId d); [|by right; left].
    shape_changed (tg_meetingId d) m Ho Hins Hms.
  - shape_resolve (md_meetingId d); [|by right; left].
    case_decide; shape_changed (md_meetingId d) m Ho Hins Hms.
  - shape_resolve (md_meetingId d); [|by right; left].
    case_decide; [|shape_changed (md_meetingId d) m Ho Hins Hms].
    destruct (env_connected env (md_targetSocketId d));
      shape_changed (md_meetingId d) m Ho Hins Hms.
  - left. by eexists h, hu, t, _.
  - shape_resolve mid; [|by right; left].
    shape_changed mid m Ho Hins Hms.
  - shape_resolve mid; [|by right; left].
    destruct (isActive m); shape_changed mid m Ho Hins Hms.
  - shape_resolve mid; [|by right; left].
    shape_changed mid m Ho Hins Hms.
  - shape_resolve mid; [|by right; left].
    destruct (decide (host m = uid)) as [<-|Hne].
    + rewrite decide_False by (by intros ?). shape_changed mid m Ho Hins Hms.
    + rewrite decide_True by done. shape_changed mid m Ho Hins Hms.
Qed.

End StepShape.

(** ** What no event does to the store *)

Section StoreWide.

Lemma step_lookup env ev st k m' :
  meetings (step env ev st).1 !! k = Some m' →
  (∃ h hu t t', ev = HttpCreate h hu t ∧ k = env_uuid env ∧
                m' = new_meeting k h hu t' (env_now env)) ∨
  meetings st !! k = Some m' ∨
  ∃ m, resolved_from st env k m ∧ Change k ev m m'.
Proof.
  intros Hk.
  destruct (step_shape env ev st)
    as [(h & hu & t & t' & -> & Hms)|[Hms|(mid & m & m1 & Ho & Hch & Hms)]];
    rewrite Hms in Hk.
  - destruct (decide (env_uuid env = k)) as [<-|Hne].
    + rewrite lookup_insert_eq in Hk. injection Hk as <-. left. by exists h, hu, t, t'.
    + rewrite lookup_insert_ne in Hk by done. by right; left.
  - by right; left.
  - destruct (decide (mid = k)) as [<-|Hne].
    + rewrite lookup_insert_eq in Hk. injection Hk as <-. right; right. by exists m.
    + rewrite lookup_insert_ne in Hk by done. by right; left.
Qed.

(** X7. No event evicts a meeting: a meeting that is resident stays resident
    through every sequence of events. *)
Theorem store_never_evicts (evs : list (Env * Event)) (st : ServerState) (k : string) :
  is_Some (meetings st !! k) → is_Some (meetings (run evs st) !! k).
Proof.
  revert st. induction evs as [|[env ev] evs IH]; intros st Hk; [done|].
  simpl. apply IH.
  destruct (step_shape env ev st)
    as [(h & hu & t & t' & -> & Hms)|[Hms|(mid & m & m1 & Ho & Hch & Hms)]];
    rewrite Hms; try done.
  - destruct (decide (env_uuid env = k)) as [<-|Hne].
    + rewrite lookup_insert_eq. eauto.
    + by rewrite lookup_insert_ne.
  - destruct (decide (mid = k)) as [<-|Hne].
    + rewrite lookup_insert_eq. eauto.
    + by rewrite lookup_insert_ne.
Qed.

Lemma store_never_evicts_witness :
  is_Some (meetings (run [(demo_env, HttpLeave "MEET0001" "u1");
                          (demo_env, HttpEnd "MEET0001" "h")]
                       (run demo_events init)) !! "MEET0001"%string).
Proof.
  apply store_never_evicts. exists demo_meeting. vm_compute. reflexivity.
Defined.

(** X8. An event changes the record of at most one meeting: there is a key
    such that every meeting stored under another key is stored unchanged. *)
Theorem step_touches_one_meeting (env : Env) (ev : Event) (st : ServerState) :
  ∃ k0, ∀ k, k ≠ k0 → meetings (step env ev st).1 !! k = meetings st !! k.
Proof.
  destruct (step_shape env ev st)
    as [(h & hu & t & t' & -> & Hms)|[Hms|(mid & m & m1 & Ho & Hch & Hms)]].
  - exists (env_uuid env). intros k Hk. rewrite Hms. by rewrite lookup_insert_ne.
  - exists ""%string. intros k _. by rewrite Hms.
  - exists mid. intros k Hk. rewrite Hms. by rewrite lookup_insert_ne.
Qed.

Lemma set_fields_frame (m : InMemoryMeeting) acts ps :
  let m' := set_participants (set_activities m acts) ps in
  meetingId m' = meetingId m ∧ host m' = host m ∧ hostUsername m' = hostUsername m ∧
  title m' = title m ∧ createdAt m' = createdAt m ∧ isActive m' = isActive m ∧
  endedAt m' = endedAt m ∧ messages m' = messages m ∧ transcript m' = transcript m.
Proof. done. Qed.

Lemma log_change_shape new old on off uid uname now m :
  ∃ acts, log_change new old on off uid uname now m = set_activities m acts.
Proof.
  unfold log_change. destruct new as [b|].
  - case_decide; [exists (activities m); by destruct m|]. by eexists.
  - exists (activities m). by destruct m.
Qed.

Lemma updateParticipant_shape m uid u now :
  ∃ acts ps, updateParticipant m uid u now = set_participants (set_activities m acts) ps.
Proof.
  unfold updateParticipant. destruct (getParticipant m uid) as [p|].
  - repeat match goal with
    | |- context [log_change ?a ?b ?c ?d ?e ?f ?g ?h] =>
        let acts := fresh "acts" in let H := fresh in
        destruct (log_change_shape a b c d e f g h) as [acts H]; rewrite H; clear H
    end.
    by eexists _, _.
  - exists (activities m), (participants m). by destruct m.
Qed.

Lemma removeParticipant_shape m uid now :
  ∃ acts ps, removeParticipant m uid now = set_participants (set_activities m acts) ps.
Proof.
  unfold removeParticipant. destruct (getParticipant m uid) as [p|].
  - by eexists _, _.
  - eexists (activities m), _. by destruct m.
Qed.

(** The fields that identify a meeting. *)
Lemma change_identity mid ev m m1 :
  Change mid ev m m1 →
  meetingId m1 = meetingId m ∧ host m1 = host m ∧ hostUsername m1 = hostUsername m ∧
  title m1 = title m ∧ createdAt m1 = createdAt m.
Proof.
  destruct 1; try done.
  - destruct (removeParticipant_shape m uid now) as (acts & ps & ->). done.
  - destruct (updateParticipant_shape m uid u now) as (acts & ps & ->). done.
  - unfold addTranscript. by case_decide.
Qed.

Lemma change_active mid ev m m1 :
  Change mid ev m m1 →
  isActive m1 = isActive m ∨ (ev = HttpEnd mid (host m) ∧ isActive m1 = false).
Proof.
  destruct 1; try (by left).
  - destruct (removeParticipant_shape m uid now) as (acts & ps & ->). by left.
  - destruct (updateParticipant_shape m uid u now) as (acts & ps & ->). by left.
  - unfold addTranscript. case_decide; by left.
  - by right.
Qed.

Lemma resolved_from_resident st env k m m0 :
  meetings st !! k = Some m0 → resolved_from st env k m → m = m0.
Proof. intros Hk [Hm|[Hm _]]; congruence. Qed.

(** X9. The identity of a meeting is fixed: over any event other than a
    create request that draws the same identifier again, a resident meeting
    keeps its id, host, host name, title and creation time. *)
Theorem identity_immutable (env : Env) (ev : Event) (st : ServerState) (k : string)
    (m m' : InMemoryMeeting) :
  meetings st !! k = Some m →
  meetings (step env ev st).1 !! k = Some m' →
  (∀ h hu t, ev = HttpCreate h hu t → env_uuid env ≠ k) →
  meetingId m' = meetingId m ∧ host m' = host m ∧ hostUsername m' = hostUsername m ∧
  title m' = title m ∧ createdAt m' = createdAt m.
Proof.
  intros Hm Hm' Hcreate.
  destruct (step_lookup _ _ _ _ _ Hm')
    as [(h & hu & t & t' & -> & -> & _)|[Hsame|(m0 & Ho & Hch)]].
  - by destruct (Hcreate h hu t eq_refl).
  - by simplify_eq.
  - rewrite (resolved_from_resident _ _ _ _ _ Hm Ho) in Hch.
    by eapply change_identity.
Qed.

Lemma identity_immutable_witness :
  let st := run demo_events init in
  let ev := HostKickParticipant "s1" (mkModeration "MEET0001" "h" "u2" "s2" "Vik") in
  ∃ m', meetings (step demo_env ev st).1 !! "MEET0001"%string = Some m' ∧
        length (participants m') = 1 ∧
        meetingId m' = meetingId demo_meeting ∧ host m' = host demo_meeting ∧
        hostUsername m' = hostUsername demo_meeting ∧ title m' = title demo_meeting ∧
        createdAt m' = createdAt demo_meeting.
Proof.
  intros st ev. eexists. split; [vm_compute; reflexivity|]. split; [reflexivity|].
  eapply (identity_immutable demo_env ev st "MEET0001" demo_meeting).
  - vm_compute. reflexivity.
  - vm_compute. reflexivity.
  - done.
Defined.

(** X10. Only the host ends a meeting, and only a new create request revives
    an id: if an event turns a resident meeting from active to ended, the
    event is the end request of that meeting by its host; if a meeting is
    ended before an event and active after, the event is a create request
    that drew its id. *)
Theorem only_host_ends (env : Env) (ev : Event) (st : ServerState) (k : string)
    (m m' : InMemoryMeeting) :
  meetings st !! k = Some m →
  meetings (step env ev st).1 !! k = Some m' →
  (isActive m = true → isActive m' = false → ev = HttpEnd k (host m)) ∧
  (isActive m = false → isActive m' = true →
     ∃ h hu t, ev = HttpCreate h hu t ∧ env_uuid env = k).
Proof.
  intros Hm Hm'.
  destruct (step_lookup _ _ _ _ _ Hm')
    as [(h & hu & t & t' & -> & -> & ->)|[Hsame|(m0 & Ho & Hch)]].
  - split; [done|]. intros _ _. by exists h, hu, t.
  - simplify_eq. split; congruence.
  - rewrite (resolved_from_resident _ _ _ _ _ Hm Ho) in Hch.
    destruct (change_active _ _ _ _ Hch) as [Heq|[-> Hfalse]].
    + split; congruence.
    + split; [done|congruence].
Qed.

Lemma only_host_ends_witness :
  let st := run demo_events init in
  let ev := HttpEnd "MEET0001" "h" in
  ∃ m', meetings (step demo_env ev st).1 !! "MEET0001"%string = Some m' ∧
        isActive m' = false ∧ ev = HttpEnd "MEET0001" (host demo_meeting).
Proof.
  intros st ev. eexists. split; [vm_compute; reflexivity|]. split; [reflexivity|].
  eapply (only_host_ends demo_env ev st "MEET0001" demo_meeting).
  - vm_compute. reflexivity.
  - vm_compute. reflexivity.
  - reflexivity.
  - reflexivity.
Defined.

End StoreWide.

(** ** Stored transcript text *)

Section TranscriptText.

Lemma trimEnd_twice (s : string) : trimEnd (trimEnd s) = trimEnd s.
Proof.
  induction s as [|c r IH]; [done|]. cbn [trimEnd].
  destruct (trimEnd r) as [|c' r'] eqn:Hr.
  - destruct (is_space c) eqn:Hc; [done|]. cbn [trimEnd]. by rewrite Hc.
  - remember (String c' r') as x eqn:Hx. cbn [trimEnd]. rewrite IH. by subst x.
Qed.

Lemma trimEnd_head (c : Ascii.ascii) (r : string) :
  is_space c = false → ∃ r', trimEnd (String c r) = String c r'.
Proof.
  intros Hc. cbn [trimEnd]. destruct (trimEnd r); [|by eexists].
  rewrite Hc. by eexists.
Qed.

Lemma trimStart_head (s : string) :
  trimStart s = ""%string ∨ ∃ c r, trimStart s = String c r ∧ is_space c = false.
Proof.
  induction s as [|c r IH]; [by left|]. cbn [trimStart].
  destruct (is_space c) eqn:Hc; [done|]. right. by exists c, r.
Qed.

(** Trimming a trimmed text gives the same text. *)
Lemma trim_twice (s : string) : trim (trim s) = trim s.
Proof.
  unfold trim. destruct (trimStart_head s) as [->|(c & r & -> & Hc)]; [done|].
  destruct (trimEnd_head c r Hc) as [r' Hr']. rewrite Hr'.
  cbn [trimStart]. rewrite Hc, <- Hr'. apply trimEnd_twice.
Qed.

Lemma push_bounded_Forall {A} (P : A → Prop) (cap : nat) (l : list A) (x : A) :
  Forall P l → P x → Forall P (push_bounded cap l x).
Proof.
  intros Hl Hx. unfold push_bounded.
  assert (Forall P (l ++ [x])) as Hall by (apply Forall_app; auto).
  case_decide; [|done]. destruct (l ++ [x]); [done|]. by inversion Hall.
Qed.

Lemma change_transcript mid ev m m1 :
  Change mid ev m m1 → Forall text_ok (transcript m) → Forall text_ok (transcript m1).
Proof.
  destruct 1; intros Hok; try done.
  - by destruct (removeParticipant_shape m uid now) as (acts & ps & ->).
  - by destruct (updateParticipant_shape m uid u now) as (acts & ps & ->).
  - unfold addTranscript. case_decide as Hblank; [done|]. simpl.
    apply push_bounded_Forall; [done|]. split; simpl.
    + intros Ht. apply Hblank. by right.
    + apply trim_twice.
Qed.

Lemma step_transcripts env ev st :
  (∀ k m, meetings st !! k = Some m → Forall text_ok (transcript m)) →
  ∀ k m, meetings (step env ev st).1 !! k = Some m → Forall text_ok (transcript m).
Proof.
  intros Hst k m' Hk.
  destruct (step_lookup _ _ _ _ _ Hk)
    as [(h & hu & t & t' & -> & -> & ->)|[Hsame|(m0 & Ho & Hch)]].
  - apply Forall_nil_2.
  - by eapply Hst.
  - eapply change_transcript; [exact Hch|].
    destruct Ho as [Hm|(_ & d & _ & ->)]; [by eapply Hst|apply Forall_nil_2].
Qed.

(** X11. No blank text is ever stored in a transcript: in every state the
    server can reach, each stored entry has a non-empty text with no white
    space at either end. *)
Theorem stored_transcripts_trimmed (evs : list (Env * Event)) (k : string)
    (m : InMemoryMeeting) (t : TranscriptEntry) :
  meetings (run evs init) !! k = Some m → t ∈ transcript m →
  t_text t ≠ ""%string ∧ trim (t_text t) = t_text t.
Proof.
  intros Hm Ht.
  assert (∀ st, (∀ k m, meetings st !! k = Some m → Forall text_ok (transcript m)) →
                ∀ k m, meetings (run evs st) !! k = Some m →
                       Forall text_ok (transcript m)) as Hrun.
  { clear Hm. induction evs as [|[env ev] evs IH]; intros st Hst; [done|].
    simpl. apply IH. by apply step_transcripts. }
  assert (Forall text_ok (transcript m)) as Hall.
  { eapply (Hrun init); [|exact Hm]. intros k' m' Hk'. simpl in Hk'.
    by rewrite lookup_empty in Hk'. }
  rewrite Forall_forall in Hall. by apply Hall.
Qed.

Lemma stored_transcripts_trimmed_witness :
  t_text (mkTranscript "u1" "Uma" "hel" (js_bool false) 0) ≠ ""%string ∧
  trim (t_text (mkTranscript "u1" "Uma" "hel" (js_bool false) 0)) = "hel"%string.
Proof.
  apply (stored_transcripts_trimmed interim_events "MEET0001"
           (mkMeeting "MEET0001" "h" "Hana" "Standup" [] []
              [mkTranscript "u1" "Uma" "hel" (js_bool false) 0] [] 0 true None)).
  - vm_compute. reflexivity.
  - apply list_elem_of_here.
Defined.

End TranscriptText.

(** ** Joining, leaving and ending *)

Section JoinLeave.

Lemma assign_first_settled (uid : string) (u : Updates) (ps : list Participant)
    (i : nat) (p : Participant) :
  list_find (λ p, p_userId p = uid) ps = Some (i, p) → assign p u = p →
  assign_first uid u ps = ps.
Proof.
  revert i. induction ps as [|q ps IH]; intros i Hfind Hp; [done|].
  cbn [assign_first list_find] in *.
  destruct (decide (p_userId q = uid)) as [Heq|Hne].
  - injection Hfind as <- <-. by rewrite Hp.
  - destruct (list_find _ ps) as [[j r]|] eqn:Hf; [|done].
    simpl in Hfind. injection Hfind as <- <-. f_equal. by eapply IH.
Qed.

Lemma updateParticipant_same_socket m uid sid now p :
  getParticipant m uid = Some p → p_socketId p = Some sid →
  updateParticipant m uid (mkUpdates (Some sid) None None None None) now = m.
Proof.
  intros Hp Hs. unfold updateParticipant. rewrite Hp. cbn [log_change u_isHandRaised
    u_isScreenSharing u_isAudioMuted u_isVideoOff].
  unfold getParticipant in Hp.
  destruct (list_find _ (participants m)) as [[i q]|] eqn:Hf; [|done].
  simpl in Hp. injection Hp as ->.
  rewrite (assign_first_settled uid _ (participants m) i p Hf).
  - apply set_participants_id.
  - destruct p. simpl in Hs. by subst.
Qed.

Lemma updateParticipant_active m uid u now :
  isActive (updateParticipant m uid u now) = isActive m.
Proof. by destruct (updateParticipant_shape m uid u now) as (acts & ps & ->). Qed.

Ltac join_state Hrooms :=
  unfold store, set_meetings, set_activeSockets, set_rooms, getChatHistory;
  cbn [meetings activeSockets rooms fst snd app]; rewrite Hrooms; reflexivity.

(** The state and the outputs of a join that succeeds. *)
Lemma join_success env sid d st st0 m :
  resolve env (j_meetingId d) st = (st0, Some m) → isActive m = true →
  ∃ m1 p1 socks notice,
    on_join_meeting env sid d st =
      (mkState (<[j_meetingId d := m1]> (meetings st0)) socks
         ({[ (sid, j_meetingId d) ]} ∪ rooms st),
       notice ++
       [Emit (SocketEmit sid) "joined-meeting"
          (PJoined (j_meetingId d)
             (view <$> filter (λ p, truthy (p_socketId p) = true ∧ p_socketId p ≠ Some sid)
                         (participants m1))
             sid (messages m1));
        Emit (SocketTo (j_meetingId d) sid) "user-joined"
          (PUserJoined (j_userId d) (j_username d) sid (env_now env))]) ∧
    socks !! sid = Some (mkSession (j_userId d) (j_username d) (j_meetingId d)) ∧
    isActive m1 = true ∧
    getParticipant m1 (j_userId d) = Some p1 ∧ p_socketId p1 = Some sid ∧
    m1 = match getParticipant m (j_userId d) with
         | None => (addParticipant m (j_userId d) (j_username d) (Some sid) (env_now env)).1
         | Some _ => updateParticipant m (j_userId d)
                       (mkUpdates (Some sid) None None None None) (env_now env)
         end ∧
    (notice = [] ∨
     ∃ ex old, getParticipant m (j_userId d) = Some ex ∧ p_socketId ex = Some old ∧
               old ≠ sid ∧
               notice = [Emit (SocketTo (j_meetingId d) sid) "user-disconnected"
                           (PPeerGone (j_userId d) (j_username d) old)]).
Proof.
  intros Hr Hact. destruct (resolve_some _ _ _ _ _ Hr) as (_ & Ha & Hrooms & _).
  unfold on_join_meeting. rewrite Hr, Hact.
  destruct (getParticipant m (j_userId d)) as [ex|] eqn:Hex.
  - pose proof (getParticipant_updated m (j_userId d)
                  (mkUpdates (Some sid) None None None None) (env_now env) ex Hex) as Hp1.
    destruct (p_socketId ex) as [old|] eqn:Hold;
      [destruct (truthy (Some old) && negb (bool_decide (old = sid))) eqn:Hc|].
    + eexists _, _, _, [Emit (SocketTo (j_meetingId d) sid) "user-disconnected"
                          (PPeerGone (j_userId d) (j_username d) old)].
      split; [join_state Hrooms|].
      apply andb_true_iff in Hc as [_ Hne%negb_true_iff%bool_decide_eq_false].
      split_and!; try done.
      * rewrite lookup_delete_ne by done. apply lookup_insert_eq.
      * by rewrite updateParticipant_active.
      * right. by exists ex, old.
    + eexists _, _, _, []. split; [join_state Hrooms|].
      split_and!; try done; [apply lookup_insert_eq|by rewrite updateParticipant_active|by left].
    + eexists _, _, _, []. split; [join_state Hrooms|].
      split_and!; try done; [apply lookup_insert_eq|by rewrite updateParticipant_active|by left].
  - destruct (addParticipant_fresh_facts m (j_userId d) (j_username d) (Some sid) (env_now env))
      as (_ & Hfresh & _).
    eexists _, _, _, []. split; [join_state Hrooms|].
    split_and!; try done; [apply lookup_insert_eq|by left].
Qed.

(** X12. Joining twice over the same connection is the same as joining once:
    the second join leaves the whole server state as the first one left it,
    and its only outputs are the reply to the joiner and the [user-joined]
    broadcast, without any disconnect notice. *)
Theorem join_twice (env env' : Env) (sid : string) (d : JoinData)
    (st st0 : ServerState) (m : InMemoryMeeting) :
  resolve env (j_meetingId d) st = (st0, Some m) → isActive m = true →
  let r1 := on_join_meeting env sid d st in
  let r2 := on_join_meeting env' sid d r1.1 in
  r2.1 = r1.1 ∧
  ∃ roster history,
    r2.2 = [Emit (SocketEmit sid) "joined-meeting"
              (PJoined (j_meetingId d) roster sid history);
            Emit (SocketTo (j_meetingId d) sid) "user-joined"
              (PUserJoined (j_userId d) (j_username d) sid (env_now env'))].
Proof.
  intros Hr Hact r1 r2.
  destruct (join_success env sid d st st0 m Hr Hact)
    as (m1 & p1 & socks & notice & Hjoin & Hsock & Hact1 & Hp1 & Hs1 & _).
  unfold r2, r1. rewrite Hjoin. cbn [fst].
  set (st1 := mkState _ _ _).
  assert (meetings st1 !! j_meetingId d = Some m1) as Hm1 by apply lookup_insert_eq.
  unfold on_join_meeting. rewrite (resolve_resident _ _ _ _ Hm1), Hact1, Hp1, Hs1.
  unfold truthy. rewrite (bool_decide_eq_true_2 (sid = sid)) by done.
  rewrite andb_false_r. cbn [fst snd app].
  rewrite (updateParticipant_same_socket m1 _ sid _ p1 Hp1 Hs1).
  split; [|by eexists _, _].
  unfold store, set_meetings, set_activeSockets, set_rooms, st1. cbn. f_equal.
  - by rewrite insert_insert_eq.
  - by apply insert_id.
  - by rewrite (assoc_L (∪)), (idemp_L (∪)).
Qed.

Lemma join_twice_witness :
  let d := mkJoin "MEET0001" "u1" "Uma" in
  let r1 := on_join_meeting demo_env "s9" d (run demo_events init) in
  let r2 := on_join_meeting demo_env "s9" d r1.1 in
  r2.1 = r1.1 ∧
  ∃ roster history,
    r2.2 = [Emit (SocketEmit "s9") "joined-meeting" (PJoined "MEET0001" roster "s9" history);
            Emit (SocketTo "MEET0001" "s9") "user-joined" (PUserJoined "u1" "Uma" "s9" 0)].
Proof.
  intros d.
  apply (join_twice demo_env demo_env "s9" d (run demo_events init) (run demo_events init)
           demo_meeting); [|reflexivity].
  apply resolve_resident. vm_compute. reflexivity.
Defined.

Lemma join_refused_facts (env : Env) (sid : string) (d : JoinData) (st : ServerState) :
  ((resolve env (j_meetingId d) st).2 = None ∨
   ∃ m, meetings st !! j_meetingId d = Some m ∧ isActive m = false) →
  on_join_meeting env sid d st =
    (st, [Emit (SocketEmit sid) "error" (PError "Meeting not found")]) ∧
  http_joinMeeting env (j_meetingId d) (j_userId d) (j_username d) st =
    (st, [Respond 404]).
Proof.
  unfold on_join_meeting, http_joinMeeting. intros [Hnone|(m & Hm & Hact)].
  - destruct (resolve env (j_meetingId d) st) as [st0 om] eqn:Hr. simpl in Hnone. subst om.
    by apply resolve_none in Hr as [-> _].
  - by rewrite (resolve_resident _ _ _ _ Hm), Hact.
Qed.

(** X13. A join for a meeting that does not resolve, or that has ended, is
    refused: over the socket the joiner alone gets an [error] and the
    connection is neither registered nor put in the room; over HTTP the
    answer is 404. The state is unchanged. *)
Theorem join_refused (env : Env) (sid : string) (d : JoinData) (st : ServerState) :
  ((resolve env (j_meetingId d) st).2 = None ∨
   ∃ m, meetings st !! j_meetingId d = Some m ∧ isActive m = false) →
  on_join_meeting env sid d st =
    (st, [Emit (SocketEmit sid) "error" (PError "Meeting not found")]) ∧
  http_joinMeeting env (j_meetingId d) (j_userId d) (j_username d) st =
    (st, [Respond 404]).
Proof. apply join_refused_facts. Qed.

Lemma join_refused_witness :
  on_join_meeting demo_env "s1" (mkJoin "NOPE" "u1" "Uma") init =
    (init, [Emit (SocketEmit "s1") "error" (PError "Meeting not found")]) ∧
  http_joinMeeting demo_env "NOPE" "u1" "Uma" init = (init, [Respond 404]).
Proof.
  apply (join_refused demo_env "s1" (mkJoin "NOPE" "u1" "Uma") init). by left.
Defined.

(** X14. Ending a meeting. A request by anyone but the host is answered 403
    and changes nothing. The host's request marks the meeting ended in
    memory, participants and logs kept, and is answered 200 when the update
    of the database goes through and 500 when it fails; either way joins
    are refused from then on, while a chat message sent to the ended
    meeting is still stored and broadcast. *)
Theorem end_meeting (env env' : Env) (mid uid : string) (st : ServerState)
    (m : InMemoryMeeting) :
  meetings st !! mid = Some m →
  (uid ≠ host m → http_endMeeting env mid uid st = (st, [Respond 403])) ∧
  (uid = host m →
     let st' := (http_endMeeting env mid uid st).1 in
     let m' := set_ended m (env_now env) in
     http_endMeeting env mid uid st =
       (store mid m' st, [Respond (if env_dbFails env then 500 else 200)]) ∧
     isActive m' = false ∧ endedAt m' = Some (env_now env) ∧
     participants m' = participants m ∧ messages m' = messages m ∧
     transcript m' = transcript m ∧ activities m' = activities m ∧
     (∀ sid d, j_meetingId d = mid →
        on_join_meeting env' sid d st' =
          (st', [Emit (SocketEmit sid) "error" (PError "Meeting not found")])) ∧
     (∀ sid d, c_meetingId d = mid →
        ∃ msg, on_chat_message env' sid d st' =
                 (store mid (addMessage m' msg) st',
                  [Emit (IoTo mid) "chat-message" (PMessage msg)]))).
Proof.
  intros Hm. unfold http_endMeeting. rewrite (resolve_resident _ _ _ _ Hm). split.
  - intros Hne. by rewrite decide_True by (by intros ?).
  - intros ->. rewrite decide_False by (by intros ?). cbn [fst].
    assert (meetings (store mid (set_ended m (env_now env)) st) !! mid
            = Some (set_ended m (env_now env))) as Hm' by apply lookup_insert_eq.
    split_and!; try done.
    + intros sid d <-.
      apply (join_refused_facts env' sid d). right. by eexists.
    + intros sid d <-. unfold on_chat_message.
      rewrite (resolve_resident _ _ _ _ Hm'). by eexists.
Qed.

Lemma end_meeting_witness :
  let st := run demo_events init in
  let failing := mkEnv (λ _, None) 5%Z 1%Z "MEET0001" (λ _, false) true in
  http_endMeeting demo_env "MEET0001" "u1" st = (st, [Respond 403]) ∧
  http_endMeeting demo_env "MEET0001" "h" st =
    (store "MEET0001" (set_ended demo_meeting 0) st, [Respond 200]) ∧
  http_endMeeting failing "MEET0001" "h" st =
    (store "MEET0001" (set_ended demo_meeting 5) st, [Respond 500]).
Proof.
  intros st failing.
  assert (meetings st !! "MEET0001"%string = Some demo_meeting) as Hm
    by (vm_compute; reflexivity).
  destruct (end_meeting demo_env demo_env "MEET0001" "u1" st demo_meeting Hm)
    as [Hother _].
  destruct (end_meeting demo_env demo_env "MEET0001" "h" st demo_meeting Hm)
    as [_ Hhost].
  destruct (end_meeting failing demo_env "MEET0001" "h" st demo_meeting Hm)
    as [_ Hfail].
  split_and!.
  - by apply Hother.
  - by destruct (Hhost eq_refl) as [-> _].
  - by destruct (Hfail eq_refl) as [-> _].
Defined.

End JoinLeave.

(** ** The roster, leaving and moderation *)

Section RosterModeration.

Lemma NoDup_fmap_filter {A B} (f : A → B) (P : A → Prop) `{!∀ x, Decision (P x)}
    (l : list A) :
  NoDup (f <$> l) → NoDup (f <$> filter P l).
Proof.
  induction l as [|x l IH]; [done|]. rewrite fmap_cons, NoDup_cons. intros [Hx Hl].
  rewrite filter_cons. case_decide; [|by apply IH].
  rewrite fmap_cons, NoDup_cons. split; [|by apply IH].
  intros (y & Hy & [_ Hin]%list_elem_of_filter)%list_elem_of_fmap.
  apply Hx. rewrite Hy. by apply list_elem_of_fmap_2.
Qed.

Lemma NoDup_fmap_same {A B} (f : A → B) (l : list A) (x y : A) :
  NoDup (f <$> l) → x ∈ l → y ∈ l → f x = f y → x = y.
Proof.
  induction l as [|z l IH]; [by intros _ ?%elem_of_nil|].
  rewrite fmap_cons, NoDup_cons. intros [Hz Hl] Hx Hy Hf.
  apply elem_of_cons in Hx as [->|Hx]; apply elem_of_cons in Hy as [->|Hy]; try done.
  - exfalso. apply Hz. rewrite Hf. by apply list_elem_of_fmap_2.
  - exfalso. apply Hz. rewrite <- Hf. by apply list_elem_of_fmap_2.
  - by apply IH.
Qed.

Lemma view_userId (p : Participant) : pv_userId (view p) = p_userId p.
Proof. done. Qed.

Lemma assign_first_keeps (uid : string) (u : Updates) (ps : list Participant)
    (q : Participant) :
  q ∈ ps → p_userId q ≠ uid → q ∈ assign_first uid u ps.
Proof.
  intros (i & Hi)%list_elem_of_lookup_1 Hq.
  eapply list_elem_of_lookup_2. by apply assign_first_lookup_ne.
Qed.

(** X15. The roster sent to a joiner, in any state the server can reach: it
    lists live connections only, never the joiner's own connection nor an
    entry for the joiner's user id, no user twice; and every other listed
    participant of the meeting whose entry holds a live connection id other
    than the joiner's is on it. *)
Theorem roster_of_join (evs : list (Env * Event)) (env : Env) (sid : string)
    (d : JoinData) (st0 : ServerState) (m : InMemoryMeeting) :
  let st := run evs init in
  resolve env (j_meetingId d) st = (st0, Some m) → isActive m = true →
  ∃ roster history,
    Emit (SocketEmit sid) "joined-meeting" (PJoined (j_meetingId d) roster sid history)
      ∈ (on_join_meeting env sid d st).2 ∧
    (∀ v, v ∈ roster →
          truthy (pv_socketId v) = true ∧ pv_socketId v ≠ Some sid ∧
          pv_userId v ≠ j_userId d) ∧
    NoDup (pv_userId <$> roster) ∧
    (∀ p, p ∈ participants m → p_userId p ≠ j_userId d →
          truthy (p_socketId p) = true → p_socketId p ≠ Some sid → view p ∈ roster).
Proof.
  intros st Hr Hact.
  destruct (join_success env sid d st st0 m Hr Hact)
    as (m1 & p1 & socks & notice & Hjoin & _ & _ & Hp1 & Hs1 & Hm1 & _).
  assert (store_ok (step env (JoinMeeting sid d) st).1) as Hok
    by (apply step_ok, run_ok, init_ok).
  cbn [step] in Hok. rewrite Hjoin in Hok. cbn [fst] in Hok.
  destruct (Hok (j_meetingId d) m1) as (Hnd & _); [apply lookup_insert_eq|].
  rewrite Hjoin. cbn [snd]. eexists _, _. split_and!.
  - apply elem_of_app. right. apply list_elem_of_here.
  - intros v (p & -> & [[Hlive Hother] Hin]%list_elem_of_filter)%list_elem_of_fmap.
    split_and!; try done. rewrite view_userId. intros Huid.
    apply getParticipant_Some in Hp1 as [Hu1 Hin1].
    assert (p = p1) as -> by (eapply (NoDup_fmap_same p_userId); eauto; congruence).
    done.
  - rewrite <- list_fmap_compose.
    apply (NoDup_fmap_filter (pv_userId ∘ view)). exact Hnd.
  - intros p Hin Huid Hlive Hother. apply list_elem_of_fmap_2.
    apply list_elem_of_filter. split; [done|]. rewrite Hm1.
    destruct (getParticipant m (j_userId d)) as [ex|].
    + unfold updateParticipant.
      destruct (updateParticipant_shape m (j_userId d)
                  (mkUpdates (Some sid) None None None None) (env_now env)) as (? & ? & _).
      pose proof (updateParticipant_frame_facts m (j_userId d)
                    (mkUpdates (Some sid) None None None None) (env_now env)) as (Hfr & _).
      apply list_elem_of_lookup_1 in Hin as [i Hi].
      eapply list_elem_of_lookup_2. by apply Hfr.
    + destruct (addParticipant_fresh_facts m (j_userId d) (j_username d) (Some sid) (env_now env))
        as (_ & _ & -> & _).
      apply elem_of_app. left. by apply list_elem_of_filter.
Qed.

Lemma roster_of_join_witness :
  let d := mkJoin "MEET0001" "u3" "Wes" in
  ∃ roster history,
    Emit (SocketEmit "s3") "joined-meeting" (PJoined "MEET0001" roster "s3" history)
      ∈ (on_join_meeting demo_env "s3" d (run demo_events init)).2 ∧
    (∀ v, v ∈ roster →
          truthy (pv_socketId v) = true ∧ pv_socketId v ≠ Some "s3"%string ∧
          pv_userId v ≠ "u3"%string) ∧
    NoDup (pv_userId <$> roster) ∧
    (∀ p, p ∈ participants demo_meeting → p_userId p ≠ "u3"%string →
          truthy (p_socketId p) = true → p_socketId p ≠ Some "s3"%string →
          view p ∈ roster).
Proof.
  intros d.
  assert (resolve demo_env (j_meetingId d) (run demo_events init)
          = (run demo_events init, Some demo_meeting)) as Hr
    by (apply resolve_resident; vm_compute; reflexivity).
  exact (roster_of_join demo_events demo_env "s3" d _ demo_meeting Hr eq_refl).
Defined.

(** X16. A disconnect does not prune anything: after the connection of a
    listed participant has dropped, the roster sent to the next joiner still
    lists that participant with the connection id that is gone. *)
Theorem roster_keeps_dropped (env env' : Env) (s sid : string) (d : JoinData)
    (st : ServerState) (m : InMemoryMeeting) (q : Participant) :
  meetings st !! j_meetingId d = Some m → isActive m = true →
  q ∈ participants m → p_socketId q = Some s → s ≠ ""%string → s ≠ sid →
  p_userId q ≠ j_userId d →
  let st1 := (on_disconnect env s st).1 in
  ∃ roster history,
    Emit (SocketEmit sid) "joined-meeting" (PJoined (j_meetingId d) roster sid history)
      ∈ (on_join_meeting env' sid d st1).2 ∧
    view q ∈ roster.
Proof.
  intros Hm Hact Hq Hs Hs0 Hsid Huid st1.
  assert (meetings st1 !! j_meetingId d = Some m) as Hm1.
  { unfold st1, on_disconnect. destruct (activeSockets st !! s) as [sess|]; [|done].
    destruct (resolve env (s_meetingId sess) st) as [st0 [m0|]] eqn:Hr; cbn [fst].
    - destruct (resolve_some _ _ _ _ _ Hr) as (_ & _ & _ & Hkeep & _). by apply Hkeep.
    - by apply resolve_none in Hr as [-> _]. }
  destruct (join_success env' sid d st1 st1 m (resolve_resident _ _ _ _ Hm1) Hact)
    as (m1 & p1 & socks & notice & Hjoin & _ & _ & _ & _ & Hm1' & _).
  rewrite Hjoin. cbn [snd]. eexists _, _. split.
  - apply elem_of_app. right. apply list_elem_of_here.
  - apply list_elem_of_fmap_2. apply list_elem_of_filter. split.
    + rewrite Hs. split; [|congruence]. unfold truthy.
      by rewrite bool_decide_eq_false_2.
    + rewrite Hm1'. destruct (getParticipant m (j_userId d)) as [ex|].
      * pose proof (updateParticipant_frame_facts m (j_userId d)
                      (mkUpdates (Some sid) None None None None) (env_now env')) as (Hfr & _).
        apply list_elem_of_lookup_1 in Hq as [i Hi].
        eapply list_elem_of_lookup_2. by apply Hfr.
      * destruct (addParticipant_fresh_facts m (j_userId d) (j_username d) (Some sid)
                    (env_now env')) as (_ & _ & -> & _).
        apply elem_of_app. left. by apply list_elem_of_filter.
Qed.

Lemma roster_keeps_dropped_witness :
  let d := mkJoin "MEET0001" "u3" "Wes" in
  let st1 := (on_disconnect demo_env "s2" (run demo_events init)).1 in
  ∃ roster history,
    Emit (SocketEmit "s3") "joined-meeting" (PJoined "MEET0001" roster "s3" history)
      ∈ (on_join_meeting demo_env "s3" d st1).2 ∧
    view (mkParticipant "u2" "Vik" (Some "s2"%string) false false false false 0) ∈ roster.
Proof.
  intros d.
  assert (meetings (run demo_events init) !! j_meetingId d = Some demo_meeting) as Hm
    by (vm_compute; reflexivity).
  assert (mkParticipant "u2" "Vik" (Some "s2"%string) false false false false 0
          ∈ participants demo_meeting) as Hq
    by (apply list_elem_of_further, list_elem_of_here).
  exact (roster_keeps_dropped demo_env demo_env "s2" "s3" d (run demo_events init)
           demo_meeting _ Hm eq_refl Hq eq_refl
           ltac:(discriminate) ltac:(discriminate) ltac:(discriminate)).
Defined.

Lemma leave_releases_facts (env : Env) (sid : string) (d : LeaveData) (st : ServerState) :
  let r := on_leave_meeting env sid d st in
  activeSockets r.1 !! sid = None ∧
  ((sid, l_meetingId d) ∉ rooms r.1) ∧
  (∀ st0 m, resolve env (l_meetingId d) st = (st0, Some m) →
     meetings r.1 !! l_meetingId d = Some (removeParticipant m (l_userId d) (env_now env)) ∧
     r.2 = [Emit (SocketTo (l_meetingId d) sid) "user-left" (PUserLeft (l_userId d) sid)]) ∧
  (∀ st0, resolve env (l_meetingId d) st = (st0, None) →
     r.2 = [] ∧ meetings r.1 = meetings st).
Proof.
  intros r. unfold r, on_leave_meeting.
  destruct (resolve env (l_meetingId d) st) as [st0 [m|]] eqn:Hr; cbn [fst snd].
  - split_and!.
    + apply lookup_delete_eq.
    + simpl. intros [_ Hn]%elem_of_difference. by apply Hn, elem_of_singleton.
    + intros ? ? [= <- <-]. split; [apply lookup_insert_eq|done].
    + intros ? [=].
  - apply resolve_none in Hr as [-> _]. split_and!.
    + apply lookup_delete_eq.
    + simpl. intros [_ Hn]%elem_of_difference. by apply Hn, elem_of_singleton.
    + intros ? ? [=].
    + by intros ? _.
Qed.

(** X17. A leave request always releases the connection: its registration is
    deleted and it is taken out of the meeting's room, even when the meeting
    does not resolve. When the meeting resolves, the user named in the
    request is removed, whichever connection sent it, and the rest of the
    room is told; when it does not, nothing is sent and no meeting changes. *)
Theorem leave_releases (env : Env) (sid : string) (d : LeaveData) (st : ServerState) :
  let r := on_leave_meeting env sid d st in
  activeSockets r.1 !! sid = None ∧
  ((sid, l_meetingId d) ∉ rooms r.1) ∧
  (∀ st0 m, resolve env (l_meetingId d) st = (st0, Some m) →
     meetings r.1 !! l_meetingId d = Some (removeParticipant m (l_userId d) (env_now env)) ∧
     r.2 = [Emit (SocketTo (l_meetingId d) sid) "user-left" (PUserLeft (l_userId d) sid)]) ∧
  (∀ st0, resolve env (l_meetingId d) st = (st0, None) →
     r.2 = [] ∧ meetings r.1 = meetings st).
Proof. apply leave_releases_facts. Qed.

Lemma leave_releases_witness :
  (on_leave_meeting demo_env "s2" (mkLeave "MEET0001" "u2") (run demo_events init)).2 =
  [Emit (SocketTo "MEET0001" "s2") "user-left" (PUserLeft "u2" "s2")].
Proof.
  assert (Hr : resolve demo_env "MEET0001" (run demo_events init) =
               (run demo_events init, Some demo_meeting)) by (vm_compute; reflexivity).
  destruct (leave_releases demo_env "s2" (mkLeave "MEET0001" "u2") (run demo_events init))
    as (_ & _ & H & _).
  exact (proj2 (H _ _ Hr)).
Defined.

(** X18. Joining and then leaving over the same connection gives back the
    participant list as it was, for a user who was not listed before; the
    connection ends up unregistered and outside the room. *)
Theorem join_then_leave (env env' : Env) (sid : string) (d : JoinData)
    (st : ServerState) (m : InMemoryMeeting) :
  meetings st !! j_meetingId d = Some m → isActive m = true →
  j_userId d ∉ userIds m →
  let st1 := (on_join_meeting env sid d st).1 in
  let st2 := (on_leave_meeting env' sid (mkLeave (j_meetingId d) (j_userId d)) st1).1 in
  ∃ m2, meetings st2 !! j_meetingId d = Some m2 ∧
        participants m2 = participants m ∧
        activeSockets st2 !! sid = None ∧ (sid, j_meetingId d) ∉ rooms st2.
Proof.
  intros Hm Hact Habs st1 st2.
  destruct (join_success env sid d st st m (resolve_resident _ _ _ _ Hm) Hact)
    as (m1 & p1 & socks & notice & Hjoin & _ & _ & _ & _ & Hm1 & _).
  assert (getParticipant m (j_userId d) = None) as Hnone.
  { destruct (getParticipant m (j_userId d)) as [p|] eqn:Hp; [|done].
    exfalso. apply Habs. apply getParticipant_Some in Hp as [<- Hin].
    unfold userIds. by apply list_elem_of_fmap_2. }
  rewrite Hnone in Hm1.
  assert (meetings st1 !! j_meetingId d = Some m1) as Hst1.
  { unfold st1. rewrite Hjoin. apply lookup_insert_eq. }
  destruct (leave_releases_facts env' sid (mkLeave (j_meetingId d) (j_userId d)) st1)
    as (Hsock & Hroom & Hsome & _).
  destruct (Hsome st1 m1 (resolve_resident _ _ _ _ Hst1)) as [Hm2 _].
  eexists. split; [exact Hm2|]. split_and!; try done.
  rewrite Hm1. by apply add_then_remove_facts.
Qed.

Lemma join_then_leave_witness :
  let d := mkJoin "MEET0001" "u3" "Wes" in
  let st1 := (on_join_meeting demo_env "s3" d (run demo_events init)).1 in
  let st2 := (on_leave_meeting demo_env "s3" (mkLeave "MEET0001" "u3") st1).1 in
  ∃ m2, meetings st2 !! "MEET0001"%string = Some m2 ∧
        participants m2 = participants demo_meeting ∧
        activeSockets st2 !! "s3"%string = None ∧ ("s3"%string, "MEET0001"%string) ∉ rooms st2.
Proof.
  intros d.
  assert (meetings (run demo_events init) !! j_meetingId d = Some demo_meeting) as Hm
    by (vm_compute; reflexivity).
  assert (j_userId d ∉ userIds demo_meeting) as Habs.
  { vm_compute. intros H.
    repeat (apply elem_of_cons in H as [H|H]; [discriminate H|]).
    by apply elem_of_nil in H. }
  exact (join_then_leave demo_env demo_env "s3" d (run demo_events init) demo_meeting
           Hm eq_refl Habs).
Defined.

End RosterModeration.

(** ** Host controls that succeed, and requests that are dropped *)

Section HostControls.

(** X19. A kick by the host: the target is told first, then the room; the
    target user is no longer listed and the others keep their order; the
    target connection is taken out of the room when it is connected; the
    registrations in [activeSockets] are left as they are. *)
Theorem kick_by_host (env : Env) (sid : string) (d : ModerationData)
    (st : ServerState) (m : InMemoryMeeting) :
  meetings st !! md_meetingId d = Some m → host m = md_hostUserId d →
  let r := on_host_kick_participant env sid d st in
  r.2 = [Emit (IoTo (md_targetSocketId d)) "kicked-from-meeting"
           (PForced "host" "You have been removed from the meeting by the host");
         Emit (IoTo (md_meetingId d)) "user-kicked"
           (PKicked (md_targetUserId d) (md_targetUsername d) (md_targetSocketId d))] ∧
  (∃ m', meetings r.1 !! md_meetingId d = Some m' ∧
         (md_targetUserId d ∉ userIds m') ∧
         participants m' =
           filter (λ p, p_userId p ≠ md_targetUserId d) (participants m)) ∧
  rooms r.1 = (if env_connected env (md_targetSocketId d)
               then rooms st ∖ {[ (md_targetSocketId d, md_meetingId d) ]}
               else rooms st) ∧
  activeSockets r.1 = activeSockets st.
Proof.
  intros Hm Hhost r. unfold r, on_host_kick_participant.
  rewrite (resolve_resident _ _ _ _ Hm), decide_True by done. cbn [fst snd].
  destruct (removeParticipant_effect_facts m (md_targetUserId d) (env_now env))
    as (Hgone & Hps & _).
  split_and!; try done.
  - eexists. split; [apply lookup_insert_eq|]. by split.
  - by destruct (env_connected env (md_targetSocketId d)).
  - by destruct (env_connected env (md_targetSocketId d)).
Qed.

Lemma kick_by_host_witness :
  let d := mkModeration "MEET0001" "h" "u2" "s2" "Vik" in
  let r := on_host_kick_participant demo_env "s0" d (run demo_events init) in
  ∃ m', meetings r.1 !! "MEET0001"%string = Some m' ∧
        ("u2"%string ∉ userIds m') ∧
        participants m' = filter (λ p, p_userId p ≠ "u2"%string) (participants demo_meeting).
Proof.
  intros d.
  assert (meetings (run demo_events init) !! md_meetingId d = Some demo_meeting) as Hm
    by (vm_compute; reflexivity).
  destruct (kick_by_host demo_env "s0" d (run demo_events init) demo_meeting Hm eq_refl)
    as (_ & Hkick & _).
  exact Hkick.
Defined.

(** X20. A mute by the host: the target connection gets [force-mute] and the
    whole room gets [audio-toggled], whether or not the target user is
    listed. A listed target ends up flagged muted, and the [toggle-audio]
    with which the target's client then complies changes nothing more in the
    meeting: no second activity is logged. *)
Theorem mute_by_host (env env' : Env) (sid sid' : string) (d : ModerationData)
    (st : ServerState) (m : InMemoryMeeting) :
  meetings st !! md_meetingId d = Some m → host m = md_hostUserId d →
  let r := on_host_mute_participant env sid d st in
  let m' := updateParticipant m (md_targetUserId d)
              (mkUpdates None (Some true) None None None) (env_now env) in
  r.2 = [Emit (IoTo (md_targetSocketId d)) "force-mute"
           (PForced "host" "You have been muted by the host");
         Emit (IoTo (md_meetingId d)) "audio-toggled" (PAudio (md_targetUserId d) true)] ∧
  meetings r.1 !! md_meetingId d = Some m' ∧
  (∀ p, getParticipant m (md_targetUserId d) = Some p →
        ∃ p', getParticipant m' (md_targetUserId d) = Some p' ∧
              p_isAudioMuted p' = true ∧ p_socketId p' = p_socketId p) ∧
  (md_targetUserId d ∉ userIds m → m' = m) ∧
  meetings (on_toggle_audio env' sid'
              (mkToggle (md_meetingId d) (md_targetUserId d) true) r.1).1
    !! md_meetingId d = Some m'.
Proof.
  intros Hm Hhost r m'. unfold r, on_host_mute_participant.
  rewrite (resolve_resident _ _ _ _ Hm), decide_True by done. cbn [fst snd].
  assert (meetings (store (md_meetingId d) m' st) !! md_meetingId d = Some m') as Hm'
    by apply lookup_insert_eq.
  split_and!; try done.
  - intros p Hp. eexists. split; [by apply getParticipant_updated|]. by destruct p.
  - apply updateParticipant_frame_facts.
  - unfold on_toggle_audio, on_toggle. cbn [tg_meetingId tg_userId tg_value].
    rewrite (resolve_resident _ _ _ _ Hm'). cbn [fst store set_meetings meetings].
    rewrite lookup_insert_eq. f_equal. apply updateParticipant_twice_facts.
Qed.

Lemma mute_by_host_witness :
  let d := mkModeration "MEET0001" "h" "u2" "s2" "Vik" in
  let r := on_host_mute_participant demo_env "s0" d (run demo_events init) in
  r.2 = [Emit (IoTo "s2") "force-mute" (PForced "host" "You have been muted by the host");
         Emit (IoTo "MEET0001") "audio-toggled" (PAudio "u2" true)].
Proof.
  intros d.
  assert (meetings (run demo_events init) !! md_meetingId d = Some demo_meeting) as Hm
    by (vm_compute; reflexivity).
  destruct (mute_by_host demo_env demo_env "s0" "s2" d (run demo_events init) demo_meeting
              Hm eq_refl) as (Hout & _).
  exact Hout.
Defined.

(** X21. A chat message, file, poll, transcript entry, flag change, history
    request or host command addressed to a meeting that does not resolve is
    dropped without a trace: no output, not even to the sender, and no change
    of state. *)
Theorem unknown_meeting_dropped (env : Env) (ev : Event) (st : ServerState)
    (mid : string) :
  addressed ev = Some mid → (resolve env mid st).2 = None →
  step env ev st = (st, []).
Proof.
  intros Hev Hnone.
  destruct (resolve env mid st) as [st0 om] eqn:Hr. simpl in Hnone. subst om.
  pose proof Hr as [-> _]%resolve_none.
  destruct ev; simpl in Hev; try done; injection Hev as <-; cbn [step];
    unfold on_chat_message, on_file_share, on_create_poll, on_get_chat_history,
      on_transcript, on_toggle_audio, on_toggle_video, on_raise_hand, on_screen_share,
      on_toggle, on_host_mute_participant, on_host_kick_participant;
    by rewrite Hr.
Qed.

Lemma unknown_meeting_dropped_witness :
  step demo_env (ChatMessage "s1" (mkChat "NOPE" "u1" "Uma" "hello" 3)) init = (init, []).
Proof.
  apply (unknown_meeting_dropped demo_env _ init "NOPE"); reflexivity.
Defined.

End HostControls.

(** ** Votes: what they leave alone, and the client's copy *)

Section VotesFrame.

Lemma vote_option_others (uid : string) (oi : Z) (i : nat) (opt : PollOption) (v : string) :
  v ≠ uid → v ∈ opt_votes (vote_option uid oi i opt) ↔ v ∈ opt_votes opt.
Proof.
  intros Hv. unfold vote_option. cbn [opt_votes]. case_decide.
  - rewrite elem_of_app, list_elem_of_filter, list_elem_of_singleton. intuition congruence.
  - rewrite list_elem_of_filter. intuition congruence.
Qed.

(** X22. A vote touches one message at most, the first stored poll with the
    requested id, and in it only the voter's own votes: the history keeps its
    length; every other message is stored as before; the poll keeps its id,
    author, question and number of options, each option keeps its text, and
    a user other than the voter is in an option's voter list after the vote
    exactly if that user was in it before. *)
Theorem vote_leaves_others (history : list Message) (pollId : Z) (uid : string) (oi : Z) :
  let h' := voteOnPoll pollId uid oi history in
  length h' = length history ∧
  (list_find (is_poll pollId) history = None → h' = history) ∧
  (∀ k p, list_find (is_poll pollId) history = Some (k, p) →
     (∀ i, i ≠ k → h' !! i = history !! i) ∧
     ∃ p', h' !! k = Some p' ∧
           msg_id p' = msg_id p ∧ msg_type p' = msg_type p ∧
           msg_userId p' = msg_userId p ∧ msg_body p' = msg_body p ∧
           length (msg_options p') = length (msg_options p) ∧
           ∀ j o, msg_options p !! j = Some o →
             ∃ o', msg_options p' !! j = Some o' ∧ opt_text o' = opt_text o ∧
                   ∀ v, v ≠ uid → (v ∈ opt_votes o' ↔ v ∈ opt_votes o)).
Proof.
  intros h'. unfold h', voteOnPoll. fold (is_poll pollId).
  destruct (list_find (is_poll pollId) history) as [[k p]|] eqn:Hfind.
  - pose proof Hfind as (Hk & _)%list_find_Some.
    split_and!; [by rewrite length_insert|done|].
    intros k' p' [= <- <-]. split.
    + intros i Hi. by rewrite list_lookup_insert_ne.
    + eexists. split; [apply list_lookup_insert_eq; by eapply lookup_lt_Some|].
      unfold set_options. cbn [msg_id msg_type msg_userId msg_body msg_options].
      split_and!; try done.
      * apply length_imap.
      * intros j o Hj. exists (vote_option uid oi j o). split_and!.
        -- unfold vote_options. by rewrite list_lookup_imap, Hj.
        -- done.
        -- intros v Hv. by apply vote_option_others.
  - split_and!; try done.
Qed.

Lemma vote_leaves_others_witness :
  ∃ p', voteOnPoll 7 "u2" 1 [demo_poll] !! 0 = Some p' ∧ msg_body p' = msg_body demo_poll.
Proof.
  destruct (vote_leaves_others [demo_poll] 7 "u2" 1) as (_ & _ & H).
  destruct (H 0 demo_poll) as (_ & p' & Hp & _ & _ & _ & Hb & _); [vm_compute; reflexivity|].
  exists p'. split; [exact Hp | exact Hb].
Defined.

Lemma updated_option_server (uid : string) (oi : Z) (i : nat) (opt : PollOption) :
  updated_option uid oi i opt = vote_option uid oi i opt.
Proof. done. Qed.

(** X23. The chat panel applies a [poll-voted] broadcast to its own copy of
    the history with the same rule as the server, but to every poll with the
    id, not only the first. When at most one stored message is a poll with
    that id, the client's copy after the broadcast equals the server's
    history after the vote. *)
Theorem client_follows_server (d : VoteData) (history : list Message) :
  (∀ i j mi mj, history !! i = Some mi → history !! j = Some mj →
                is_poll (v_pollId d) mi → is_poll (v_pollId d) mj → i = j) →
  on_poll_voted d history =
  voteOnPoll (v_pollId d) (v_userId d) (v_optionIndex d) history.
Proof.
  intros Huniq. unfold on_poll_voted, voteOnPoll. fold (is_poll (v_pollId d)).
  destruct (list_find (is_poll (v_pollId d)) history) as [[k p]|] eqn:Hfind.
  - apply list_find_Some in Hfind as (Hk & Hp & _).
    apply list_eq. intros i. rewrite list_lookup_fmap.
    destruct (decide (i = k)) as [->|Hne].
    + rewrite Hk, list_lookup_insert_eq by (by eapply lookup_lt_Some).
      simpl. by rewrite decide_True.
    + rewrite list_lookup_insert_ne by done.
      destruct (history !! i) as [mi|] eqn:Hi; [|done]. simpl.
      rewrite decide_False; [done|]. intros Hpi. apply Hne. by eapply Huniq.
  - apply list_find_None in Hfind. rewrite Forall_forall in Hfind.
    apply list_eq. intros i. rewrite list_lookup_fmap.
    destruct (history !! i) as [mi|] eqn:Hi; [|done]. simpl.
    rewrite decide_False; [done|]. apply Hfind. by eapply list_elem_of_lookup_2.
Qed.

Lemma client_follows_server_witness :
  on_poll_voted (mkVote "MEET0001" 7 "u2" "Vik" 1) [demo_poll] =
  voteOnPoll 7 "u2" 1 [demo_poll].
Proof.
  apply (client_follows_server (mkVote "MEET0001" 7 "u2" "Vik" 1) [demo_poll]).
  intros [|i] [|j] mi mj Hi Hj _ _; try done.
Defined.

End VotesFrame.

(** ** Offers, answers and teardown on the client *)

Section Negotiating.

(** X24. Firing [createOffer] twice for one target sends one offer at most.
    The first call sends an offer exactly when no offer for the target is
    being created and the connection exists in state [stable]; it then leaves
    the connection in [have-local-offer]. The second call sends nothing and
    changes nothing. The set of pending targets is the same before and after
    each call. *)
Theorem createOffer_once (pending : gset string) (target : string) (ice ice' : bool)
    (st : ClientState) :
  let r1 := createOffer pending target ice st in
  r1.1.1 = pending ∧
  (r1.2 = [OfferSent target ice] ∨ (r1.2 = [] ∧ r1.1.2 = st)) ∧
  (r1.2 = [OfferSent target ice] ↔
     (target ∉ pending) ∧
     ∃ pc, peerConnections st !! target = Some pc ∧ signalingState pc = stable) ∧
  (r1.2 = [OfferSent target ice] →
     signalingState <$> peerConnections r1.1.2 !! target = Some have_local_offer) ∧
  createOffer r1.1.1 target ice' r1.1.2 = (pending, r1.1.2, []).
Proof.
  intros r1.
  assert (∀ p : gset string, target ∉ p → ({[target]} ∪ p) ∖ {[target]} = p) as Hset.
  { intros p Hp. apply set_eq. intros x.
    rewrite elem_of_difference, elem_of_union, !elem_of_singleton.
    split; [by intros [[?|?] ?]|]. intros Hx. split; [by right|]. by intros ->. }
  unfold r1, createOffer.
  destruct (decide (target ∈ pending)) as [Hin|Hnin].
  - cbn [fst snd]. rewrite decide_True by done.
    split_and!; try done.
    + by right.
    + split; [done|]. by intros [? _].
  - destruct (peerConnections st !! target) as [pc|] eqn:Hpc.
    + destruct (decide (signalingState pc ≠ stable)) as [Hns|Hs].
      * cbn [fst snd]. rewrite decide_False, Hpc, decide_True by done.
        split_and!; try done.
        -- by right.
        -- split; [done|]. intros (_ & pc' & [= <-] & ?). done.
      * apply dec_stable in Hs. cbn [fst snd]. rewrite (Hset pending Hnin).
        rewrite decide_False by done. simpl. rewrite !lookup_insert_eq. simpl.
        split_and!; try done.
        -- by left.
        -- split; [|done]. intros _. split; [done|]. by exists pc.
    + cbn [fst snd]. rewrite decide_False, Hpc by done.
      split_and!; try done.
      * by right.
      * split; [done|]. by intros (_ & pc' & [=] & _).
Qed.

Lemma createOffer_once_witness :
  signalingState <$>
    peerConnections
      (createOffer ∅ "b2" false
         (mkClient (Some "a1"%string) true {[ "b2"%string := mkPc stable true ]}
            "u1" "Uma" [])).1.2
      !! "b2"%string = Some have_local_offer.
Proof.
  destruct (createOffer_once ∅ "b2" false false
              (mkClient (Some "a1"%string) true {[ "b2"%string := mkPc stable true ]}
                 "u1" "Uma" []))
    as (_ & _ & _ & H & _).
  apply H. vm_compute; reflexivity.
Defined.

Lemma handleOffer_fresh (sender : string) (st : ClientState) :
  (∀ pc, peerConnections st !! sender = Some pc → signalingState pc = stable) →
  (handleOffer sender st).2 = [RemoteOfferSet sender; AnswerSent sender] ∧
  signalingState <$> peerConnections (handleOffer sender st).1 !! sender = Some stable.
Proof.
  intros Hst. unfold handleOffer.
  destruct (peerConnections st !! sender) as [pc|] eqn:Hpc.
  - pose proof (Hst pc eq_refl) as Hs. destruct pc as [s i]. simpl in Hs. subst s.
    simpl. repeat (first [rewrite Hpc | rewrite lookup_insert_eq]; simpl). done.
  - simpl. repeat (first [rewrite Hpc | rewrite lookup_insert_eq]; simpl). done.
Qed.

(** X25. One offer, one answer: the offerer makes an offer from [stable], the
    other side, with no connection yet or a stable one, answers it without
    rolling anything back, and the answer brings the offerer back to
    [stable]. Both ends finish in [stable]. *)
Theorem offer_answer_handshake (pending : gset string) (a b : string)
    (stA stB : ClientState) (pcA : PeerConnection) :
  b ∉ pending →
  peerConnections stA !! b = Some pcA → signalingState pcA = stable →
  (∀ pcB, peerConnections stB !! a = Some pcB → signalingState pcB = stable) →
  let oA := createOffer pending b false stA in
  let rB := handleOffer a stB in
  let stA' := handleAnswer b oA.1.2 in
  oA.2 = [OfferSent b false] ∧
  signalingState <$> peerConnections oA.1.2 !! b = Some have_local_offer ∧
  rB.2 = [RemoteOfferSet a; AnswerSent a] ∧
  signalingState <$> peerConnections rB.1 !! a = Some stable ∧
  peerConnections stA' !! b = Some (mkPc stable (isInitiator pcA)).
Proof.
  intros Hpend HpcA HsA HsB oA rB stA'.
  destruct (handleOffer_fresh a stB HsB) as [Hacts HstB].
  unfold stA', oA, createOffer, handleAnswer.
  rewrite decide_False, HpcA by done.
  destruct pcA as [s i]. simpl in HsA. subst s. simpl.
  repeat (rewrite lookup_insert_eq; simpl).
  by split_and!.
Qed.

Lemma offer_answer_handshake_witness :
  let stA := mkClient (Some "a1"%string) true {[ "b2"%string := mkPc stable true ]}
               "u1" "Uma" [] in
  let stB := mkClient (Some "b2"%string) true ∅ "u2" "Vik" [] in
  let oA := createOffer ∅ "b2" false stA in
  let rB := handleOffer "a1" stB in
  let stA' := handleAnswer "b2" oA.1.2 in
  oA.2 = [OfferSent "b2" false] ∧
  signalingState <$> peerConnections oA.1.2 !! "b2"%string = Some have_local_offer ∧
  rB.2 = [RemoteOfferSet "a1"; AnswerSent "a1"] ∧
  signalingState <$> peerConnections rB.1 !! "a1"%string = Some stable ∧
  peerConnections stA' !! "b2"%string = Some (mkPc stable true).
Proof.
  intros stA stB.
  apply (offer_answer_handshake ∅ "a1" "b2" stA stB (mkPc stable true)); try done.
Defined.

(** X26. Glare runs to completion with one answer. Both ends have an offer
    pending and each receives the other's. The end whose id sorts first
    rolls back and answers; the other end drops the offer it receives and
    then takes that answer. One answer is sent in all, and both ends finish
    in [stable]. *)
Theorem glare_completes (a b : string) (stA stB : ClientState)
    (pcA pcB : PeerConnection) :
  socketId stA = Some a → socketId stB = Some b → a ≠ ""%string →
  shouldInitiate a b = true →
  peerConnections stA !! b = Some pcA → signalingState pcA = have_local_offer →
  peerConnections stB !! a = Some pcB → signalingState pcB = have_local_offer →
  let rA := handleOffer b stA in
  let rB := handleOffer a stB in
  let stB' := handleAnswer a rB.1 in
  rA.2 = [Rollback b; RemoteOfferSet b; AnswerSent b] ∧
  rB = (stB, []) ∧
  peerConnections rA.1 !! b = Some (mkPc stable (isInitiator pcA)) ∧
  peerConnections stB' !! a = Some (mkPc stable (isInitiator pcB)).
Proof.
  intros HsA HsB Ha Hlt HpcA HstA HpcB HstB rA rB stB'.
  assert (rB = (stB, [])) as HrB.
  { unfold rB, handleOffer. rewrite HpcB, HsB, decide_True by done.
    unfold rolls_back. rewrite (shouldInitiate_asym _ _ Hlt). by rewrite andb_false_r. }
  unfold stB'. rewrite HrB. cbn [fst]. unfold handleAnswer.
  rewrite HpcB, decide_True by done. simpl. rewrite lookup_insert_eq.
  unfold rA, handleOffer. rewrite HpcA, HsA, decide_True by done.
  unfold rolls_back. rewrite bool_decide_eq_false_2, Hlt by done. simpl.
  repeat (rewrite lookup_insert_eq; simpl).
  unfold set_signalingState. simpl.
  by split_and!.
Qed.

Lemma glare_completes_witness :
  let stA := mkClient (Some "a1"%string) true {[ "b2"%string := mkPc have_local_offer true ]}
               "u1" "Uma" [] in
  let stB := mkClient (Some "b2"%string) true {[ "a1"%string := mkPc have_local_offer false ]}
               "u2" "Vik" [] in
  let rA := handleOffer "b2" stA in
  let rB := handleOffer "a1" stB in
  let stB' := handleAnswer "a1" rB.1 in
  rA.2 = [Rollback "b2"; RemoteOfferSet "b2"; AnswerSent "b2"] ∧
  rB = (stB, []) ∧
  peerConnections rA.1 !! "b2"%string = Some (mkPc stable true) ∧
  peerConnections stB' !! "a1"%string = Some (mkPc stable false).
Proof.
  intros stA stB.
  apply (glare_completes "a1" "b2" stA stB (mkPc have_local_offer true)
           (mkPc have_local_offer false)); done.
Defined.

Lemma filter_twice {A} (P : A → Prop) `{!∀ x, Decision (P x)} (l : list A) :
  filter P (filter P l) = filter P l.
Proof.
  induction l as [|x l IH]; [done|]. rewrite filter_cons. case_decide; [|done].
  by rewrite filter_cons, decide_True, IH.
Qed.

(** X27. Teardown of a peer link and what arrives after it. After
    [handleUserDisconnected] no connection is kept for the remote id, the
    other connections are untouched, and a connection is closed exactly when
    there was one. Afterwards a second teardown, an offer timer that fires
    and an answer that arrives do nothing; an offer that arrives builds a new
    connection and is answered. *)
Theorem teardown_then_late_messages (pending : gset string) (r : string) (ice : bool)
    (st : ClientState) :
  let t := handleUserDisconnected r st in
  peerConnections t.1 !! r = None ∧
  (∀ k, k ≠ r → peerConnections t.1 !! k = peerConnections st !! k) ∧
  (t.2 = [Closed r] ↔ is_Some (peerConnections st !! r)) ∧
  handleUserDisconnected r t.1 = (t.1, []) ∧
  createOffer pending r ice t.1 = (pending, t.1, []) ∧
  handleAnswer r t.1 = t.1 ∧
  (handleOffer r t.1).2 = [RemoteOfferSet r; AnswerSent r] ∧
  peerConnections (handleOffer r t.1).1 !! r = Some (mkPc stable false).
Proof.
  intros t.
  assert (peerConnections t.1 !! r = None) as Hnone.
  { unfold t, handleUserDisconnected, cleanupPeerConnection.
    destruct (peerConnections st !! r) eqn:Hr; [apply lookup_delete_eq|done]. }
  split_and!.
  - done.
  - intros k Hk. unfold t, handleUserDisconnected, cleanupPeerConnection.
    destruct (peerConnections st !! r); [|done]. simpl. by rewrite lookup_delete_ne.
  - unfold t, handleUserDisconnected, cleanupPeerConnection.
    destruct (peerConnections st !! r) as [pc|]; simpl; split; try done;
      first [by eauto | by intros [? ?]].
  - unfold handleUserDisconnected at 1. unfold cleanupPeerConnection at 1.
    rewrite Hnone. f_equal. unfold t, handleUserDisconnected, cleanupPeerConnection.
    destruct (peerConnections st !! r); unfold set_cl_participants; simpl;
      by rewrite filter_twice.
  - unfold createOffer. rewrite Hnone. by case_decide.
  - unfold handleAnswer. by rewrite Hnone.
  - apply handleOffer_fresh. intros pc. by rewrite Hnone.
  - unfold handleOffer. rewrite Hnone. simpl.
    repeat (first [rewrite Hnone | rewrite lookup_insert_eq]; simpl). done.
Qed.

End Negotiating.

(** ** Cross-origin policy and the summary controller *)

Section CorsSummary.

(** The only requests the origin check refuses: in production, with a
    configured list, from a non-empty origin that is not on the list. A
    request without origin, any request in development and any request when
    no list is configured pass. *)
Lemma origin_refused_iff (allowedOrigins : option (list string)) (isProduction : bool)
    (origin : option string) :
  origin_allowed allowedOrigins isProduction origin = false ↔
  isProduction = true ∧
  ∃ o l, origin = Some o ∧ o ≠ ""%string ∧ allowedOrigins = Some l ∧ o ∉ l.
Proof.
  unfold origin_allowed. destruct origin as [o|].
  - destruct (decide (o = ""%string)) as [->|Ho].
    + split; [done|]. by intros (_ & o' & l & [= <-] & ? & _).
    + destruct allowedOrigins as [l|].
      * destruct (decide (o ∈ l)) as [Hin|Hnin].
        -- split; [done|]. by intros (_ & o' & l' & [= <-] & _ & [= <-] & ?).
        -- destruct isProduction; simpl.
           ++ split; [|done]. intros _. split; [done|]. by exists o, l.
           ++ split; [done|]. by intros [? _].
      * split; [done|]. by intros (_ & o' & l' & _ & _ & [=] & _).
  - split; [done|]. by intros (_ & o' & l & [=] & _).
Qed.

Lemma split_comma_plain (s : string) : has_comma s = false → split_comma s = [s].
Proof.
  induction s as [|c r IH]; [done|]. simpl. intros [Hc Hr]%orb_false_iff.
  apply bool_decide_eq_false in Hc. rewrite decide_False by done.
  by rewrite IH.
Qed.

Lemma split_comma_cons (s t : string) :
  has_comma s = false → split_comma (s +:+ String comma t) = s :: split_comma t.
Proof.
  induction s as [|c r IH]; simpl.
  - intros _. reflexivity.
  - intros [Hc Hr]%orb_false_iff. apply bool_decide_eq_false in Hc.
    rewrite decide_False by done. by rewrite IH.
Qed.

Lemma split_join (os : list string) :
  os ≠ [] → Forall (λ o, has_comma o = false) os → split_comma (join_comma os) = os.
Proof.
  induction os as [|o os IH]; [done|]. intros _ Hall.
  apply Forall_cons in Hall as [Ho Hos]. destruct os as [|o' os].
  - by apply split_comma_plain.
  - change (join_comma (o :: o' :: os)) with (o +:+ String comma (join_comma (o' :: os))).
    rewrite split_comma_cons by done. f_equal. by apply IH.
Qed.

(** X28. Reading the configuration: for origins written without commas and
    separated by commas, [getAllowedOrigins] gives back the origins, each
    with the white space around it removed; the production check then lets a
    non-empty origin pass exactly if it is one of these. *)
Theorem configured_origins (os : list string) (o : string) :
  os ≠ [] → Forall (λ x, has_comma x = false) os → join_comma os ≠ ""%string →
  o ≠ ""%string →
  getAllowedOrigins (Some (join_comma os)) = Some (trim <$> os) ∧
  (origin_allowed (getAllowedOrigins (Some (join_comma os))) true (Some o) = true ↔
   o ∈ trim <$> os).
Proof.
  intros Hne Hall Hjoin Ho.
  assert (getAllowedOrigins (Some (join_comma os)) = Some (trim <$> os)) as Hget.
  { unfold getAllowedOrigins. rewrite decide_False by done. by rewrite split_join. }
  split; [done|]. rewrite Hget. unfold origin_allowed.
  rewrite decide_False by done. by case_decide.
Qed.

Lemma configured_origins_witness :
  getAllowedOrigins (Some (join_comma ["https://a.example"; " https://b.example "]%string))
    = Some (trim <$> ["https://a.example"; " https://b.example "]%string) ∧
  (origin_allowed
     (getAllowedOrigins (Some (join_comma ["https://a.example"; " https://b.example "]%string)))
     true (Some "https://b.example"%string) = true ↔
   "https://b.example"%string ∈ trim <$> ["https://a.example"; " https://b.example "]%string).
Proof.
  apply configured_origins; try done.
  repeat constructor.
Defined.

Lemma div_parts (diff : Z) :
  (0 ≤ diff)%Z →
  let h := (diff / (1000 * 60 * 60))%Z in
  let mi := ((diff `mod` (1000 * 60 * 60)) / (1000 * 60))%Z in
  (0 ≤ h ∧ 0 ≤ mi < 60 ∧
   (60 * h + mi) * 60000 ≤ diff < (60 * h + mi + 1) * 60000)%Z.
Proof.
  intros Hd h mi.
  pose proof (Z.div_mod diff (1000 * 60 * 60) ltac:(lia)) as Hdm.
  pose proof (Z.mod_pos_bound diff (1000 * 60 * 60) ltac:(lia)) as Hb.
  pose proof (Z.div_mod (diff `mod` (1000 * 60 * 60)) (1000 * 60) ltac:(lia)) as Hdm'.
  pose proof (Z.mod_pos_bound (diff `mod` (1000 * 60 * 60)) (1000 * 60) ltac:(lia)) as Hb'.
  fold h in Hdm. fold mi in Hdm'.
  assert (0 ≤ h)%Z by (apply Z.div_pos; lia).
  lia.
Qed.

(** X29. [calculateDuration] answers "Unknown" when an argument is falsy,
    the number 0 included, or the end lies before the start, and
    "NaN minutes" when an argument is truthy but gives no valid date, as a
    number beyond the range of a Date does. For two valid times at most
    2^53 milliseconds apart it prints the elapsed time rounded down to whole
    minutes: as hours and minutes under sixty when at least one hour has
    passed, as minutes alone when not. *)
Theorem duration_whole_minutes (start end_ : TimeArg) :
  (ta_falsy start = true ∨ ta_falsy end_ = true →
     calculateDuration start end_ = "Unknown"%string) ∧
  (ta_falsy start = false → ta_falsy end_ = false →
     (ta_time start = None ∨ ta_time end_ = None →
        calculateDuration start end_ = "NaN minutes"%string) ∧
     (∀ s e, ta_time start = Some s → ta_time end_ = Some e →
        ((e < s)%Z → calculateDuration start end_ = "Unknown"%string) ∧
        ((s ≤ e)%Z → (e - s ≤ 2 ^ 53)%Z →
           ∃ h mi : Z,
             (0 ≤ h ∧ 0 ≤ mi < 60 ∧
              (60 * h + mi) * 60000 ≤ e - s < (60 * h + mi + 1) * 60000)%Z ∧
             calculateDuration start end_ =
               if decide (0 < h)%Z then (pretty h +:+ "h " +:+ pretty mi +:+ "m")%string
               else (pretty mi +:+ " minutes")%string))) ∧
  calculateDuration (of_number 0) end_ = "Unknown"%string ∧
  calculateDuration start (of_number 0) = "Unknown"%string ∧
  (∀ n, (maxTime < n ∨ n < - maxTime)%Z → ta_falsy start = false →
     calculateDuration start (of_number n) = "NaN minutes"%string).
Proof.
  split_and!.
  - unfold calculateDuration. intros [-> | ->]; [done|]. by rewrite orb_true_r.
  - intros Hs He. unfold calculateDuration. rewrite Hs, He. simpl. split.
    + intros [-> | ->]; [done|]. by destruct (ta_time start).
    + intros s e -> ->. split.
      * intros Hlt. by rewrite decide_True by lia.
      * intros Hle _. rewrite decide_False by lia.
        eexists _, _. split; [apply (div_parts (e - s)); lia|]. done.
  - done.
  - unfold calculateDuration. simpl. by rewrite orb_true_r.
  - intros n Hn Hs. unfold calculateDuration, of_number. rewrite Hs. simpl.
    rewrite bool_decide_eq_false_2 by (unfold maxTime in Hn; lia).
    rewrite decide_False by lia. by destruct (ta_time start).
Qed.

Lemma duration_whole_minutes_witness :
  (∃ h mi : Z,
     (0 ≤ h ∧ 0 ≤ mi < 60 ∧
      (60 * h + mi) * 60000 ≤ 5461000 - 1000 < (60 * h + mi + 1) * 60000)%Z ∧
     calculateDuration (of_date (Some 1000%Z)) (of_number 5461000) =
       if decide (0 < h)%Z then (pretty h +:+ "h " +:+ pretty mi +:+ "m")%string
       else (pretty mi +:+ " minutes")%string) ∧
  calculateDuration (of_date (Some 1000%Z)) (of_number 9000000000000000) =
    "NaN minutes"%string.
Proof.
  destruct (duration_whole_minutes (of_date (Some 1000%Z)) (of_number 5461000))
    as (_ & Hvalid & _).
  destruct (Hvalid eq_refl eq_refl) as [_ Htimes].
  destruct (Htimes 1000%Z 5461000%Z eq_refl eq_refl) as [_ Hle].
  destruct (duration_whole_minutes (of_date (Some 1000%Z)) no_time)
    as (_ & _ & _ & _ & Hfar).
  split.
  - apply Hle; lia.
  - apply Hfar; [unfold maxTime; lia|done].
Defined.

Lemma types_partition (l : list Message) :
  length (filter (λ msg, msg_type msg = text) l) +
  length (filter (λ msg, msg_type msg = poll) l) +
  length (filter (λ msg, msg_type msg = file) l) = length l.
Proof.
  induction l as [|msg l IH]; [done|]. rewrite !filter_cons.
  destruct (msg_type msg); simpl; lia.
Qed.

(** X30. The counts reported by [getMeetingData] add up: in any state the
    server can reach, text messages, polls and files of a meeting that
    resolves are counted once each, together as many as the stored history
    holds and never more than 500; every listed participant is reported; a
    meeting that does not resolve is answered 404. *)
Theorem meeting_data_counts (evs : list (Env * Event)) (env : Env) (mid : string) :
  let st := run evs init in
  (∀ st0 m, resolve env mid st = (st0, Some m) →
     ∃ data, getMeetingData env mid st = (st0, (200, Some data)) ∧
             md_messageCount data + md_pollCount data + md_fileCount data
               = length (messages m) ∧
             md_messageCount data + md_pollCount data + md_fileCount data ≤ 500 ∧
             length (md_participants data) = length (participants m)) ∧
  ((resolve env mid st).2 = None → getMeetingData env mid st = (st, (404, None))).
Proof.
  intros st. split.
  - intros st0 m Hr. unfold getMeetingData. rewrite Hr. eexists. split; [done|].
    unfold meetingData, getChatHistory. cbn [md_messageCount md_pollCount md_fileCount
      md_participants]. rewrite types_partition, length_fmap.
    assert (store_ok st) as Hst by apply run_ok, init_ok.
    destruct (resolve_ok env mid st st0 (Some m) Hst Hr) as [_ Hm].
    destruct (Hm m eq_refl) as (_ & ? & _). by split_and!.
  - intros Hnone. unfold getMeetingData.
    destruct (resolve env mid st) as [st0 om] eqn:Hr. simpl in Hnone. subst om.
    by apply resolve_none in Hr as [-> _].
Qed.

Lemma meeting_data_counts_witness :
  ∃ data,
    getMeetingData demo_env "MEET0001" (run demo_events init) =
      (run demo_events init, (200, Some data)) ∧
    md_messageCount data + md_pollCount data + md_fileCount data
      = length (messages demo_meeting) ∧
    md_messageCount data + md_pollCount data + md_fileCount data ≤ 500 ∧
    length (md_participants data) = length (participants demo_meeting).
Proof.
  destruct (meeting_data_counts demo_events demo_env "MEET0001") as [H _].
  apply H. vm_compute; reflexivity.
Defined.

End CorsSummary.
